(** * Nomad AI: trip form validation, activity selection and the
      recommendation core

    Shallow embedding of the trip-planning form of the Next.js frontend
    ([nomadai-frontend/src/app/page.tsx], component [TravelPlanningModal], and
    [nomadai-frontend/src/components/TravelPlanner.tsx]) and of the
    recommendation and itinerary synthesis core described by the design
    document.

    - [Module JS]: the fragments of the JavaScript standard library the form
      code calls ([String.prototype.trim], [parseInt], relational comparison
      of strings, truthiness of strings).
    - [Module Frontend]: [TravelFormData], [handleActivityChange],
      [validateForm] and [handleSubmit].
    - [Module Core]: budget allocator, ranking primitive and itinerary
      synthesizer. *)

From Stdlib Require Import ZArith Ascii String Lia.
From stdpp Require Import base decidable option list sorting gmap strings pretty.

(** ** JavaScript primitives used by the form *)

Module JS.

(** A JavaScript string is a sequence of UTF-16 code units.  The form fields
    only ever hold code units below 256 in the cases studied here, so a code
    unit is an [ascii] and a string is a [string]; the code of a unit is
    [N_of_ascii]. *)

Definition code (c : ascii) : Z := Z.of_N (N_of_ascii c).

(** [!s] is [false] exactly for the non-empty strings. *)
Definition truthy (s : string) : bool :=
  match s with
  | EmptyString => false
  | String _ _ => true
  end.

(** White space and line terminators among the code units below 256:
    TAB, LF, VT, FF, CR, SP and NBSP. *)
Definition is_white_space (c : ascii) : bool :=
  let n := code c in
  ((9 <=? n) && (n <=? 13) || (n =? 32) || (n =? 160))%Z.

Fixpoint trimStart (s : string) : string :=
  match s with
  | EmptyString => EmptyString
  | String c s' => if is_white_space c then trimStart s' else s
  end.

Fixpoint trimEnd (s : string) : string :=
  match s with
  | EmptyString => EmptyString
  | String c s' =>
      match trimEnd s' with
      | EmptyString => if is_white_space c then EmptyString else String c EmptyString
      | t => String c t
      end
  end.

(** [String.prototype.trim] *)
Definition trim (s : string) : string := trimEnd (trimStart s).

(** A JavaScript number, as far as the form needs it: [NaN] or an integer.
    ([parseInt] of a very long digit string is rounded to a double or to
    [Infinity]; its sign, the only thing the form looks at, is that of the
    integer read, and [-0] compares like [0].) *)
Inductive number : Type :=
  | NaN
  | Int (n : Z).

(** [a <= b] on numbers: every comparison with [NaN] is [false]. *)
Definition le (a b : number) : bool :=
  match a, b with
  | Int x, Int y => (x <=? y)%Z
  | _, _ => false
  end.

(** The value of a code unit as a digit in radix [R], if it is one. *)
Definition digit_value (R : Z) (c : ascii) : option Z :=
  let n := code c in
  let v :=
    if ((48 <=? n) && (n <=? 57))%Z then Some (n - 48)%Z
    else if ((97 <=? n) && (n <=? 122))%Z then Some (n - 87)%Z
    else if ((65 <=? n) && (n <=? 90))%Z then Some (n - 55)%Z
    else None in
  match v with
  | Some d => if (d <? R)%Z then Some d else None
  | None => None
  end.

(** The longest prefix of radix-[R] digits of [s], as a number; [seen] tells
    whether a digit has been consumed already ([NaN] when there is none). *)
Fixpoint read_digits (R : Z) (s : string) (acc : Z) (seen : bool) : number :=
  match s with
  | String c s' =>
      match digit_value R c with
      | Some d => read_digits R s' (acc * R + d)%Z true
      | None => if seen then Int acc else NaN
      end
  | EmptyString => if seen then Int acc else NaN
  end.

(** [parseInt(string)] with the radix left undefined: leading white space is
    skipped, a sign is read, a [0x]/[0X] prefix selects radix 16, and the
    longest prefix of digits is the value. *)
Definition parseInt (str : string) : number :=
  let s := trimStart str in
  let '(sign, s) :=
    match s with
    | String c r =>
        if Ascii.eqb c "-" then ((-1)%Z, r)
        else if Ascii.eqb c "+" then (1%Z, r)
        else (1%Z, s)
    | EmptyString => (1%Z, s)
    end in
  let '(R, s) :=
    match s with
    | String c0 (String c1 r) =>
        if Ascii.eqb c0 "0" && (Ascii.eqb c1 "x" || Ascii.eqb c1 "X")
        then (16%Z, r) else (10%Z, s)
    | _ => (10%Z, s)
    end in
  match read_digits R s 0 false with
  | Int n => Int (sign * n)
  | NaN => NaN
  end.

(** [a >= b] on two strings: code units are compared from the left, and a
    proper prefix is smaller. *)
Definition string_ge (a b : string) : bool :=
  match String.compare a b with
  | Lt => false
  | _ => true
  end.

End JS.

(** ** The trip form *)

Module Frontend.

(** [interface TravelFormData] *)
Record TravelFormData : Type := {
  origin : string;
  destination : string;
  startDate : string;
  endDate : string;
  strictDates : string;
  budget : string;
  people : string;
  travelMode : string;
  activities : list string;
  visitedBefore : string;
  hotelPreference : string
}.

(** The initial state of the form ([useState<TravelFormData>]). *)
Definition initialFormData : TravelFormData := {|
  origin := "";
  destination := "";
  startDate := "";
  endDate := "";
  strictDates := "yes";
  budget := "";
  people := "1";
  travelMode := "plane";
  activities := [];
  visitedBefore := "no";
  hotelPreference := "mid-range"
|}.

(** [prev.activities.includes(activity) ? prev.activities.filter(a => a !== activity)
     : [...prev.activities, activity]] *)
Definition toggle (activity : string) (acts : list string) : list string :=
  if bool_decide (activity ∈ acts)
  then filter (λ a, a ≠ activity) acts
  else acts ++ [activity].

(** [handleActivityChange], as the state update it passes to [setFormData]. *)
Definition handleActivityChange (activity : string) (prev : TravelFormData)
  : TravelFormData := {|
  origin := origin prev;
  destination := destination prev;
  startDate := startDate prev;
  endDate := endDate prev;
  strictDates := strictDates prev;
  budget := budget prev;
  people := people prev;
  travelMode := travelMode prev;
  activities := toggle activity (activities prev);
  visitedBefore := visitedBefore prev;
  hotelPreference := hotelPreference prev
|}.

(** [if (cond) { newErrors.field = message }] *)
Definition record_if (cond : bool) (field message : string)
    (newErrors : gmap string string) : gmap string string :=
  if cond then <[field := message]> newErrors else newErrors.

(** [validateForm]: the errors object handed to [setErrors], and the
    returned boolean [Object.keys(newErrors).length === 0]. *)
Definition validateForm (formData : TravelFormData) : gmap string string * bool :=
  let newErrors : gmap string string := ∅ in
  let newErrors :=
    record_if (negb (JS.truthy (JS.trim (origin formData))))
      "origin" "Origin is required" newErrors in
  let newErrors :=
    record_if (negb (JS.truthy (JS.trim (destination formData))))
      "destination" "Destination is required" newErrors in
  let newErrors :=
    record_if (negb (JS.truthy (startDate formData)))
      "startDate" "Start date is required" newErrors in
  let newErrors :=
    record_if (negb (JS.truthy (endDate formData)))
      "endDate" "End date is required" newErrors in
  let newErrors :=
    record_if (JS.truthy (startDate formData) && JS.truthy (endDate formData)
               && JS.string_ge (startDate formData) (endDate formData))
      "endDate" "End date must be after start date" newErrors in
  let newErrors :=
    record_if (negb (JS.truthy (budget formData))
               || JS.le (JS.parseInt (budget formData)) (JS.Int 0))
      "budget" "Valid budget is required" newErrors in
  let newErrors :=
    record_if (negb (JS.truthy (people formData))
               || JS.le (JS.parseInt (people formData)) (JS.Int 0))
      "people" "Number of people is required" newErrors in
  let newErrors :=
    record_if (negb (JS.truthy (travelMode formData)))
      "travelMode" "Travel mode is required" newErrors in
  let newErrors :=
    record_if (length (activities formData) =? 0)
      "activities" "Please select at least one activity" newErrors in
  let newErrors :=
    record_if (negb (JS.truthy (hotelPreference formData)))
      "hotelPreference" "Hotel preference is required" newErrors in
  (newErrors, size newErrors =? 0).

(** [handleSubmit]: the form data passed to [onSubmit], if any. *)
Definition handleSubmit (formData : TravelFormData) : option TravelFormData :=
  if snd (validateForm formData) then Some formData else None.

(** *** Calendar dates and amounts, to state what the checks decide *)

(** A calendar date. *)
Record Date : Type := { year : Z; month : Z; day : Z }.

(** Calendar order: by year, then month, then day. *)
Definition date_compare (a b : Date) : comparison :=
  match (year a ?= year b)%Z with
  | Eq =>
      match (month a ?= month b)%Z with
      | Eq => (day a ?= day b)%Z
      | c => c
      end
  | c => c
  end.

Definition date_le (a b : Date) : Prop := date_compare a b ≠ Gt.
Definition date_lt (a b : Date) : Prop := date_compare a b = Lt.

Definition is_digit (c : ascii) : bool :=
  ((48 <=? JS.code c) && (JS.code c <=? 57))%Z.

(** The number written by a string of decimal digits (0 for the empty
    string); [None] if some code unit is not a digit. *)
Fixpoint decimal (s : string) : option Z :=
  match s with
  | EmptyString => Some 0%Z
  | String c s' =>
      if is_digit c then
        match decimal s' with
        | Some v => Some ((JS.code c - 48) * 10 ^ Z.of_nat (String.length s') + v)%Z
        | None => None
        end
      else None
  end.

Definition is_leap_year (y : Z) : bool :=
  ((y mod 4 =? 0) && negb (y mod 100 =? 0) || (y mod 400 =? 0))%Z.

Definition days_in_month (y m : Z) : Z :=
  if (m =? 2)%Z then (if is_leap_year y then 29 else 28)%Z
  else if ((m =? 4) || (m =? 6) || (m =? 9) || (m =? 11))%Z then 30%Z
  else 31%Z.

(** An ISO 8601 calendar date [YYYY-MM-DD]: ten code units, four digits of
    year, two of month and two of day separated by hyphens, naming a day
    that exists. *)
Definition parse_iso_date (s : string) : option Date :=
  if negb (String.length s =? 10) then None
  else if negb (bool_decide (String.get 4 s = Some "-"%char)) then None
  else if negb (bool_decide (String.get 7 s = Some "-"%char)) then None
  else
    match decimal (String.substring 0 4 s),
          decimal (String.substring 5 2 s),
          decimal (String.substring 8 2 s) with
    | Some y, Some m, Some d =>
        if ((1 <=? m) && (m <=? 12) && (1 <=? d) && (d <=? days_in_month y m))%Z
        then Some {| year := y; month := m; day := d |}
        else None
    | _, _, _ => None
    end.

(** An amount written in decimal notation: [mantissa / 10 ^ decimals]. *)
Record Amount : Type := { mantissa : Z; decimals : nat }.

(** Splits a string at its first full stop, if it has one. *)
Fixpoint split_point (s : string) : string * option string :=
  match s with
  | EmptyString => (EmptyString, None)
  | String c s' =>
      if Ascii.eqb c "." then (EmptyString, Some s')
      else let '(i, f) := split_point s' in (String c i, f)
  end.

(** An optional leading minus sign, and what follows it. *)
Definition split_sign (s : string) : bool * string :=
  match s with
  | String c r => if Ascii.eqb c "-" then (true, r) else (false, s)
  | EmptyString => (false, s)
  end.

(** The amount a string denotes: an optional minus sign, at least one digit,
    and optionally a full stop followed by at least one digit. *)
Definition amount_of_string (s : string) : option Amount :=
  let '(neg, body) := split_sign s in
  let '(i, f) := split_point body in
  let f' := default EmptyString f in
  if JS.truthy i && (JS.truthy f' || bool_decide (f = None)) then
    match decimal i, decimal f' with
    | Some vi, Some vf =>
        let m := (vi * 10 ^ Z.of_nat (String.length f') + vf)%Z in
        Some {| mantissa := if neg then (- m)%Z else m;
                decimals := String.length f' |}
    | _, _ => None
    end
  else None.

(** The string denotes an amount greater than zero. *)
Definition denotes_positive_amount (s : string) : bool :=
  match amount_of_string s with
  | Some a => (0 <? mantissa a)%Z
  | None => false
  end.

(** What may follow the digits of a numeral: nothing, or a full stop and
    the rest. *)
Definition ends_digits (tail : string) : Prop :=
  tail = EmptyString ∨ ∃ r, tail = String "." r.

(** *** Sample states *)

(** The state of the form after the user has toggled the activities of
    [clicks], in order, starting from the initial form. *)
Definition after_clicks (clicks : list string) : TravelFormData :=
  foldl (λ st a, handleActivityChange a st) initialFormData clicks.

(** A complete form with the given dates and budget. *)
Definition sample_form (start finish money : string) : TravelFormData := {|
  origin := "Pune";
  destination := "Lisbon";
  startDate := start;
  endDate := finish;
  strictDates := "yes";
  budget := money;
  people := "2";
  travelMode := "plane";
  activities := ["food"; "culture"];
  visitedBefore := "no";
  hotelPreference := "mid-range"
|}.

End Frontend.

(** ** The planning modal as a state machine

    The rest of [TravelPlanningModal] ([nomadai-frontend/src/app/page.tsx]):
    the two pieces of state [formData] and [errors], the handlers that
    update them, and the lists the form renders its controls from. *)

Module Modal.
Import Frontend.

(** [checked={formData.activities.includes(activity)}] *)
Definition checked (activity : string) (formData : TravelFormData) : bool :=
  bool_decide (activity ∈ activities formData).

(** The activities the form offers a checkbox for ([activityOptions] in
    [TravelPlanner.tsx], the same list inline in the modal). *)
Definition activityOptions : list string :=
  ["sightseeing"; "culture"; "food"; "adventure";
   "relaxation"; "shopping"; "nightlife"; "nature"].

(** [Number.prototype.toString()] of a natural number below 2^53, the
    range on which every natural number is a Number and is printed with all
    its decimal digits; [None] from 2^53 on, where this does not hold. *)
Definition toString (n : N) : option string :=
  if (n <? 2 ^ 53)%N then Some (pretty n) else None.

(** [[1, 2, 3, 4, 5, 6, 7, 8].map(num => num.toString())], the values of the
    travelers select; the eight numbers are below 2^53, so each one is
    printed. *)
Definition peopleOptions : list string :=
  omap toString [1; 2; 3; 4; 5; 6; 7; 8]%N.

(** Every code unit of the string is white space.  The code units of a
    [string] are below 256, where the white space of [trim] is TAB, LF, VT,
    FF, CR, SP and NBSP. *)
Fixpoint all_white_space (s : string) : bool :=
  match s with
  | EmptyString => true
  | String c s' => JS.is_white_space c && all_white_space s'
  end.

(** The value of a date input for a year from 10000 to 99999,
    [YYYYY-MM-DD]: eleven code units, a year of five digits that does not
    start with 0, naming a day that exists. *)
Definition parse_long_date (s : string) : option Date :=
  if negb (String.length s =? 11) then None
  else if bool_decide (String.get 0 s = Some "0"%char) then None
  else if negb (bool_decide (String.get 5 s = Some "-"%char)) then None
  else if negb (bool_decide (String.get 8 s = Some "-"%char)) then None
  else
    match decimal (String.substring 0 5 s),
          decimal (String.substring 6 2 s),
          decimal (String.substring 9 2 s) with
    | Some y, Some m, Some d =>
        if ((1 <=? m) && (m <=? 12) && (1 <=? d) && (d <=? days_in_month y m))%Z
        then Some {| year := y; month := m; day := d |}
        else None
    | _, _, _ => None
    end.

(** The fields [handleInputChange] is called for: every key of
    [TravelFormData] that holds a string. *)
Inductive Field : Type :=
  | Origin
  | Destination
  | StartDate
  | EndDate
  | StrictDates
  | Budget
  | People
  | TravelMode
  | VisitedBefore
  | HotelPreference.

#[global] Instance Field_eq_dec : EqDecision Field.
Proof. solve_decision. Defined.

Definition field_name (field : Field) : string :=
  match field with
  | Origin => "origin"
  | Destination => "destination"
  | StartDate => "startDate"
  | EndDate => "endDate"
  | StrictDates => "strictDates"
  | Budget => "budget"
  | People => "people"
  | TravelMode => "travelMode"
  | VisitedBefore => "visitedBefore"
  | HotelPreference => "hotelPreference"
  end.

(** [formData[field]] *)
Definition get_field (field : Field) (formData : TravelFormData) : string :=
  match field with
  | Origin => origin formData
  | Destination => destination formData
  | StartDate => startDate formData
  | EndDate => endDate formData
  | StrictDates => strictDates formData
  | Budget => budget formData
  | People => people formData
  | TravelMode => travelMode formData
  | VisitedBefore => visitedBefore formData
  | HotelPreference => hotelPreference formData
  end.

(** [{...prev, [field]: value}] *)
Definition set_field (field : Field) (value : string) (prev : TravelFormData)
  : TravelFormData := {|
  origin := if decide (field = Origin) then value else origin prev;
  destination := if decide (field = Destination) then value else destination prev;
  startDate := if decide (field = StartDate) then value else startDate prev;
  endDate := if decide (field = EndDate) then value else endDate prev;
  strictDates := if decide (field = StrictDates) then value else strictDates prev;
  budget := if decide (field = Budget) then value else budget prev;
  people := if decide (field = People) then value else people prev;
  travelMode := if decide (field = TravelMode) then value else travelMode prev;
  activities := activities prev;
  visitedBefore :=
    if decide (field = VisitedBefore) then value else visitedBefore prev;
  hotelPreference :=
    if decide (field = HotelPreference) then value else hotelPreference prev
|}.

(** The state of the modal: [formData], and [errors], an object whose
    properties hold a message or [undefined] ([None]). *)
Record State : Type := {
  formData : TravelFormData;
  errors : gmap string (option string)
}.

(** [errors[key]] when it is truthy: the message the form shows under the
    field ([errors.origin && <p>...</p>]). *)
Definition shown (key : string) (st : State) : option string :=
  match errors st !! key with
  | Some (Some message) => if JS.truthy message then Some message else None
  | _ => None
  end.

Definition initialState : State :=
  {| formData := initialFormData; errors := ∅ |}.

(** [handleInputChange(field, value)]: the field is set, and its error, when
    one is shown, is overwritten with [undefined]. *)
Definition handleInputChange (field : Field) (value : string) (st : State)
  : State :=
  {| formData := set_field field value (formData st);
     errors :=
       if bool_decide (is_Some (shown (field_name field) st))
       then <[field_name field := None]> (errors st)
       else errors st |}.

(** [handleActivityChange(activity)] only touches [formData]. *)
Definition toggleActivity (activity : string) (st : State) : State :=
  {| formData := handleActivityChange activity (formData st);
     errors := errors st |}.

(** [handleSubmit]: [validateForm] stores its errors, and the form goes to
    [onSubmit] when there is none. *)
Definition submit (st : State) : State * option TravelFormData :=
  let '(newErrors, ok) := validateForm (formData st) in
  ({| formData := formData st; errors := Some <$> newErrors |},
   if ok then Some (formData st) else None).

(** [resetForm], which is all [handleClose] does to the state. *)
Definition resetForm (st : State) : State := initialState.

(** What the user does to the modal. *)
Inductive Event : Type :=
  | Input (field : Field) (value : string)
  | Toggle (activity : string)
  | Submit
  | Close.

Definition step (st : State) (e : Event) : State :=
  match e with
  | Input field value => handleInputChange field value st
  | Toggle activity => toggleActivity activity st
  | Submit => (submit st).1
  | Close => resetForm st
  end.

Definition run (st : State) (events : list Event) : State :=
  foldl step st events.

(** An edit: an event that is neither a submission nor a close. *)
Definition is_edit (e : Event) : bool :=
  match e with
  | Input _ _ | Toggle _ => true
  | Submit | Close => false
  end.

(** *** The chat messages of the page *)

Record Message : Type := {
  id : nat;
  type : string;
  content : string
}.

(** [[...prev, {id: prev.length + 1, type, content}]], the update every
    [setMessages] call of [submitTravelPlan] makes. *)
Definition addMessage (type content : string) (prev : list Message)
  : list Message :=
  prev ++ [{| id := length prev + 1; type := type; content := content |}].

(** The initial [messages]: the greeting, with id 1. *)
Definition initialMessages (greeting : string) : list Message :=
  [{| id := 1; type := "assistant"; content := greeting |}].

(** The messages after a series of [setMessages] updates. *)
Definition messagesAfter (greeting : string) (posts : list (string * string))
  : list Message :=
  foldl (λ prev post, addMessage post.1 post.2 prev)
    (initialMessages greeting) posts.

End Modal.

(** ** Comparison functions as orders *)

Module Orders.

(** A three-way comparison that is a linear order. *)
Record order_cmp {A : Type} (cmp : A → A → comparison) : Prop := {
  cmp_refl : ∀ x, cmp x x = Eq;
  cmp_eq : ∀ x y, cmp x y = Eq → x = y;
  cmp_opp : ∀ x y, cmp y x = CompOpp (cmp x y);
  cmp_trans : ∀ x y z, cmp x y = Lt → cmp y z = Lt → cmp x z = Lt
}.

(** Lexicographic comparison of pairs. *)
Definition lex {A B : Type} (ca : A → A → comparison) (cb : B → B → comparison)
    (p q : A * B) : comparison :=
  match ca p.1 q.1 with
  | Eq => cb p.2 q.2
  | o => o
  end.

End Orders.

(** ** The recommendation and itinerary synthesis core

    The backend of the repository (budget agent, retrieval, context and
    itinerary agents) is documented by [nomadai-backend/README.md] and the
    design document only; its sources are not part of the tree.  Every
    definition of this module is therefore modelled from the design
    document.  Money is counted in integer cents and a similarity score is a
    scaled integer. *)

Module Core.

(** *** Data model *)

(** Modelled from the spec: the fixed enumerated set of spending categories
    of a [BudgetAllocation]. *)
Inductive Category : Type :=
  | Flights
  | Accommodation
  | Activities
  | Food
  | Transportation.

#[global] Instance Category_eq_dec : EqDecision Category.
Proof. solve_decision. Defined.

Definition all_categories : list Category :=
  [Flights; Accommodation; Activities; Food; Transportation].

(** Modelled from the spec: [TripRequest]; dates are day numbers, the budget
    is in cents. *)
Record TripRequest : Type := {
  tr_origin : string;
  tr_destination : string;
  tr_start : Z;
  tr_end : Z;
  tr_strict_dates : bool;
  tr_budget : Z;
  tr_travelers : Z;
  tr_travel_mode : string;
  tr_activities : list string;
  tr_hotel_tier : string;
  tr_prior_visit : bool
}.

(** Modelled from the spec: the structural validity of a request (end after
    start, positive budget, at least one traveler, some activity category);
    anything else is an [InvalidRequest]. *)
Definition valid_request (r : TripRequest) : Prop :=
  (tr_start r < tr_end r)%Z ∧ (0 < tr_budget r)%Z ∧
  (1 ≤ tr_travelers r)%Z ∧ tr_activities r ≠ [].

(** Modelled from the spec: D, the length of the date range in days. *)
Definition duration (r : TripRequest) : nat := Z.to_nat (tr_end r - tr_start r).

(** Modelled from the spec: [BudgetAllocation], category to percentage and
    amount, with the fallback-used flag. *)
Record BudgetAllocation : Type := {
  percentage : Category → Z;
  amount : Category → Z;
  fallback_used : bool
}.

(** Modelled from the spec: [CatalogEntry] (the embedding vector is only
    read by the scoring function, a parameter of [rank]). *)
Record CatalogEntry : Type := {
  ce_id : string;
  ce_category : string;
  ce_title : string;
  ce_location : string;
  ce_cost : Z;
  ce_tags : list string
}.

(** Modelled from the spec: [RankedCandidate]. *)
Record RankedCandidate : Type := {
  rc_entry : CatalogEntry;
  rc_score : Z;
  rc_cost_flag : bool
}.

Record Weather : Type := {
  w_condition : string;
  w_low : Z;
  w_high : Z
}.

(** Modelled from the spec: [ContextInfo]; a day without forecast is [None]. *)
Record ContextInfo : Type := {
  ci_daily : list (option Weather);
  ci_summary : option string;
  ci_seasonal_tips : list string;
  ci_packing : list string
}.

(** What is scheduled in a slot: a candidate, or the placeholder that asks
    the traveler to explore independently. *)
Inductive Pick : Type :=
  | Candidate (c : RankedCandidate)
  | ExploreIndependently.

Record ScheduledActivity : Type := {
  sa_pick : Pick;
  sa_slot : string;
  sa_cost : Z;
  sa_repeated : bool
}.

Inductive Stay : Type :=
  | Unavailable
  | Hotel (h : RankedCandidate) (over_budget : bool).

(** Modelled from the spec: [DayPlan]. *)
Record DayPlan : Type := {
  dp_index : nat;
  dp_title : string;
  dp_description : string;
  dp_activities : list ScheduledActivity;
  dp_accommodation : Stay;
  dp_estimated_cost : Z;
  dp_weather : option Weather
}.

Record CostBreakdown : Type := {
  cb_flights : Z;
  cb_accommodation : Z;
  cb_total : Z
}.

(** Modelled from the spec: [Itinerary]. *)
Record Itinerary : Type := {
  it_destination : string;
  it_duration : nat;
  it_days : list DayPlan;
  it_total_estimated_cost : CostBreakdown;
  it_disclaimer : string;
  it_degraded : bool
}.

(** The three candidate lists handed over by the retrieval agent. *)
Record Candidates : Type := {
  c_flights : list RankedCandidate;
  c_hotels : list RankedCandidate;
  c_activities : list RankedCandidate
}.

(** *** Budget allocator *)

(** One call of the external reasoning service: it fails, or it answers
    with category names and percentages. *)
Inductive ServiceReply : Type :=
  | Unreachable
  | Replied (body : list (string * Z)).

Inductive AllocatorError : Type :=
  | ServiceTransientError
  | ValidationError.

Definition category_of_name (name : string) : option Category :=
  if decide (name = "flights") then Some Flights
  else if decide (name = "accommodation") then Some Accommodation
  else if decide (name = "activities") then Some Activities
  else if decide (name = "food") then Some Food
  else if decide (name = "transportation") then Some Transportation
  else None.

Definition sum_over (f : Category → Z) : Z :=
  foldr (λ c acc, (f c + acc)%Z) 0%Z all_categories.

(** The percentage a reply gives to a category, if it names it. *)
Definition reply_percentage (body : list (string * Z)) (c : Category) : option Z :=
  (λ found : nat * (string * Z), found.2.2)
    <$> list_find (λ p, category_of_name p.1 = Some c) body.

(** Modelled from the spec: validation of a reply.  A reply is rejected when
    a category is unrecognized or missing, or when the percentages do not
    sum to 100 within 2. *)
Definition validate_reply (body : list (string * Z)) : option (Category → Z) :=
  if forallb (λ p, bool_decide (is_Some (category_of_name p.1))) body
     && forallb (λ c, bool_decide (is_Some (reply_percentage body c))) all_categories
  then
    let pct c := default 0%Z (reply_percentage body c) in
    if ((98 <=? sum_over pct) && (sum_over pct <=? 102))%Z then Some pct else None
  else None.

Definition max_retries : nat := 2.

(** Modelled from the spec: the call of the reasoning service by the missing
    budget agent.  A failed call is retried while retries are left; an
    answer that fails validation is not retried. *)
Fixpoint request_split (service : nat → ServiceReply) (attempt retries : nat)
  : AllocatorError + (Category → Z) :=
  match service attempt with
  | Replied body =>
      match validate_reply body with
      | Some pct => inr pct
      | None => inl ValidationError
      end
  | Unreachable =>
      match retries with
      | O => inl ServiceTransientError
      | S retries' => request_split service (S attempt) retries'
      end
  end.

(** Modelled from the spec: the default allocation policy of the fallback. *)
Definition default_allocation_policy (c : Category) : Z :=
  match c with
  | Flights => 30
  | Accommodation => 35
  | Activities => 15
  | Food => 15
  | Transportation => 5
  end.

(** Modelled from the spec: amounts from percentages.  Every category but
    the designated one gets its rounded-down share, and the designated one
    what is left of the budget. *)
Definition amounts (designated : Category) (budget : Z) (pct : Category → Z)
    (c : Category) : Z :=
  let share c' := (budget * pct c' / 100)%Z in
  if decide (c = designated)
  then (budget - sum_over (λ c', if decide (c' = designated) then 0 else share c'))%Z
  else share c.

(** Modelled from the spec: the Budget Allocator, whose source
    ([services/budget_agent.py]) is missing.  [designated] is the category
    that absorbs the rounding, [service] the reasoning service as a function
    of the attempt number. *)
Definition allocate (designated : Category) (service : nat → ServiceReply)
    (req : TripRequest) : BudgetAllocation :=
  match request_split service 0 max_retries with
  | inr pct =>
      {| percentage := pct;
         amount := amounts designated (tr_budget req) pct;
         fallback_used := false |}
  | inl _ =>
      {| percentage := default_allocation_policy;
         amount := amounts designated (tr_budget req) default_allocation_policy;
         fallback_used := true |}
  end.

(** The allocator takes its fallback path: the first answer of the service
    is schema-invalid, or the call and all its retries fail. *)
Definition fallback_path (service : nat → ServiceReply) : Prop :=
  (∃ (k : nat) (body : list (string * Z)),
      k ≤ max_retries ∧ (∀ j, j < k → service j = Unreachable) ∧
      service k = Replied body ∧ validate_reply body = None)
  ∨ (∀ j, j ≤ max_retries → service j = Unreachable).

(** *** Ranking primitive *)

(** Modelled from the spec: the ranking order.  Higher score first, then
    lower estimated cost, then the lexicographically smaller title. *)
Definition rank_compare (a b : RankedCandidate) : comparison :=
  match (rc_score b ?= rc_score a)%Z with
  | Eq =>
      match (ce_cost (rc_entry a) ?= ce_cost (rc_entry b))%Z with
      | Eq => String.compare (ce_title (rc_entry a)) (ce_title (rc_entry b))
      | c => c
      end
  | c => c
  end.

Definition rank_le (a b : RankedCandidate) : Prop := rank_compare a b ≠ Gt.

#[global] Instance rank_le_dec (a b : RankedCandidate) : Decision (rank_le a b).
Proof. unfold rank_le. destruct (rank_compare a b); [left|left|right]; by auto. Defined.

(** An entry with its score. *)
Definition scored (score : CatalogEntry → Z) (e : CatalogEntry) : RankedCandidate :=
  {| rc_entry := e; rc_score := score e; rc_cost_flag := false |}.

(** Modelled from the spec: [rank], the ranking primitive of the similarity
    index, whose source ([services/search_agent.py]) is missing.  The entries
    of [category] in the pool, scored and put in ranking order. *)
Definition rank (score : CatalogEntry → Z) (category : string)
    (pool : list CatalogEntry) : list RankedCandidate :=
  merge_sort rank_le
    (scored score <$> filter (λ e, ce_category e = category) pool).

(** No two entries of the pool tie on score, cost and title. *)
Definition ties_broken (score : CatalogEntry → Z) (pool : list CatalogEntry)
  : Prop :=
  ∀ e1 e2, e1 ∈ pool → e2 ∈ pool →
    score e1 = score e2 → ce_cost e1 = ce_cost e2 → ce_title e1 = ce_title e2 →
    e1 = e2.

(** The ranking order compares the keys (opposite of the score, cost,
    title) lexicographically. *)
Definition sort_key (a : RankedCandidate) : Z * (Z * string) :=
  ((- rc_score a)%Z, (ce_cost (rc_entry a), ce_title (rc_entry a))).

Definition key_compare : Z * (Z * string) → Z * (Z * string) → comparison :=
  Orders.lex Z.compare (Orders.lex Z.compare String.compare).

(** The part of a candidate the ranking order looks at. *)
Definition rank_key (a : RankedCandidate) : Z * Z * string :=
  (rc_score a, ce_cost (rc_entry a), ce_title (rc_entry a)).

(** *** Itinerary synthesizer *)

Definition candidate_cost (c : RankedCandidate) : Z := ce_cost (rc_entry c).
Definition candidate_id (c : RankedCandidate) : string := ce_id (rc_entry c).
Definition candidate_category (c : RankedCandidate) : string :=
  ce_category (rc_entry c).

(** The cheapest candidate of a list (the first one among equals). *)
Fixpoint cheapest (l : list RankedCandidate) : option RankedCandidate :=
  match l with
  | [] => None
  | h :: l' =>
      match cheapest l' with
      | Some m => if (candidate_cost h <=? candidate_cost m)%Z then Some h else Some m
      | None => Some h
      end
  end.

(** Modelled from the spec: accommodation selection.  The highest-ranked
    hotel whose cost for D nights fits the allocation; otherwise the
    cheapest, flagged over budget. *)
Definition select_accommodation (D : nat) (allocation : Z)
    (hotels : list RankedCandidate) : Stay :=
  match list_find (λ h, (candidate_cost h * Z.of_nat D ≤ allocation)%Z) hotels with
  | Some (_, h) => Hotel h false
  | None =>
      match cheapest hotels with
      | Some h => Hotel h true
      | None => Unavailable
      end
  end.

Definition accommodation_total (D : nat) (s : Stay) : Z :=
  match s with
  | Hotel h _ => (candidate_cost h * Z.of_nat D)%Z
  | Unavailable => 0%Z
  end.

(** Modelled from the spec: [dayBudget = activitiesAllocation / D]. *)
Definition day_budget (activities_allocation : Z) (D : nat) : Z :=
  (activities_allocation / Z.of_nat D)%Z.

(** Modelled from the spec: the ceiling [dayBudget × 1.2] of a day. *)
Definition day_ceiling (activities_allocation : Z) (D : nat) : Z :=
  (day_budget activities_allocation D * 12 / 10)%Z.

(** The candidate pool of an activity category. *)
Definition pool_of (category : string) (acts : list RankedCandidate)
  : list RankedCandidate :=
  filter (λ c, candidate_category c = category) acts.

(** The candidate keeps the running total of the day within the ceiling. *)
Definition fits (ceiling running : Z) (c : RankedCandidate) : Prop :=
  (running + candidate_cost c ≤ ceiling)%Z.

#[global] Instance fits_dec (ceiling running : Z) (c : RankedCandidate) :
  Decision (fits ceiling running c).
Proof. unfold fits. apply _. Defined.

(** Modelled from the spec: selection for one day by the missing
    synthesizer, trying the categories in queue order.  In a category the
    highest-ranked unused candidate that fits is taken; a used candidate is
    taken again, flagged as a repetition, only when the pool of the category
    is smaller than D; otherwise the next category is tried. *)
Fixpoint pick_for_day (D : nat) (ceiling : Z) (acts : list RankedCandidate)
    (used : list string) (queue : list string)
  : option (RankedCandidate * bool) :=
  match queue with
  | [] => None
  | category :: rest =>
      let pool := pool_of category acts in
      match list_find (λ c, (candidate_id c ∉ used) ∧ fits ceiling 0 c) pool with
      | Some (_, c) => Some (c, false)
      | None =>
          if decide (length pool < D)
          then
            match list_find (fits ceiling 0) pool with
            | Some (_, c) => Some (c, true)
            | None => pick_for_day D ceiling acts used rest
            end
          else pick_for_day D ceiling acts used rest
      end
  end.

Definition day_slot : string := "day".

(** What a day schedules: the pick, or the placeholder. *)
Definition schedule (p : option (RankedCandidate * bool)) : ScheduledActivity :=
  match p with
  | Some (c, repeated) =>
      {| sa_pick := Candidate c; sa_slot := day_slot;
         sa_cost := candidate_cost c; sa_repeated := repeated |}
  | None =>
      {| sa_pick := ExploreIndependently; sa_slot := day_slot;
         sa_cost := 0; sa_repeated := false |}
  end.

Definition mark_used (p : option (RankedCandidate * bool)) (used : list string)
  : list string :=
  match p with
  | Some (c, _) => candidate_id c :: used
  | None => used
  end.

(** Round-robin rotation: the category at the front goes to the back. *)
Definition rotate (queue : list string) : list string :=
  match queue with
  | [] => []
  | category :: rest => rest ++ [category]
  end.

(** Modelled from the spec: the walk over the days of the missing
    synthesizer.  [n] days remain, [queue] is the rotation queue and [used]
    the ids scheduled so far; a day without pick gets the placeholder. *)
Fixpoint plan_days (n D : nat) (ceiling : Z) (acts : list RankedCandidate)
    (queue : list string) (used : list string) : list (list ScheduledActivity) :=
  match n with
  | O => []
  | S n' =>
      let p := pick_for_day D ceiling acts used queue in
      [schedule p] :: plan_days n' D ceiling acts (rotate queue) (mark_used p used)
  end.

Definition sum_list (l : list Z) : Z := foldr Z.add 0%Z l.

Definition day_cost (acts : list ScheduledActivity) : Z :=
  sum_list (sa_cost <$> acts).

(** Adds a remainder to the last cost of a list. *)
Fixpoint absorb_into_last (remainder : Z) (costs : list Z) : list Z :=
  match costs with
  | [] => []
  | [c] => [(c + remainder)%Z]
  | c :: cs => c :: absorb_into_last remainder cs
  end.

(** Modelled from the spec: cost reconciliation of the missing
    synthesizer.  What the day costs, accommodation and flight allocation
    lack to the grand total goes to the final day. *)
Definition reconcile (total accommodation flights : Z) (costs : list Z) : list Z :=
  absorb_into_last (total - (sum_list costs + accommodation + flights)) costs.

Definition categories_of (acts : list ScheduledActivity) : list string :=
  omap (λ a, match sa_pick a with
             | Candidate c => Some (candidate_category c)
             | ExploreIndependently => None
             end) acts.

(** Modelled from the spec: the templated description,
    ["Day N in {destination}: {category list}"]. *)
Definition templated_description (n : nat) (destination : string)
    (acts : list ScheduledActivity) : string :=
  "Day " +:+ pretty n +:+ " in " +:+ destination +:+ ": "
    +:+ String.concat ", " (categories_of acts).

(** Modelled from the spec: narrative generation; [narrate] is the
    language-model call, [None] when the service fails. *)
Definition narrative
    (narrate : nat → list ScheduledActivity → option Weather → option (string * string))
    (n : nat) (destination : string) (acts : list ScheduledActivity)
    (weather : option Weather) : string * string :=
  match narrate n acts weather with
  | Some text => text
  | None =>
      let t := templated_description n destination acts in (t, t)
  end.

Definition disclaimer : string :=
  "All prices and availability are estimates.".

Definition is_placeholder (a : ScheduledActivity) : bool :=
  match sa_pick a with
  | ExploreIndependently => true
  | Candidate _ => false
  end.

Definition stay_degraded (s : Stay) : bool :=
  match s with
  | Hotel _ over_budget => over_budget
  | Unavailable => true
  end.

(** Modelled from the spec: the Itinerary Synthesizer, whose source
    ([services/summary_agent.py]) is missing.  [estimate_total] computes the
    grand total the itinerary reports (the design document leaves its
    formula open) and [narrate] is the language-model call. *)
Definition synthesize
    (estimate_total : TripRequest → BudgetAllocation → Stay
                      → list (list ScheduledActivity) → Z)
    (narrate : nat → list ScheduledActivity → option Weather → option (string * string))
    (req : TripRequest) (alloc : BudgetAllocation) (cands : Candidates)
    (ctx : ContextInfo) : Itinerary :=
  let D := duration req in
  let stay := select_accommodation D (amount alloc Accommodation) (c_hotels cands) in
  let ceiling := day_ceiling (amount alloc Activities) D in
  let drafts := plan_days D D ceiling (c_activities cands) (tr_activities req) [] in
  let flights := amount alloc Flights in
  let lodging := accommodation_total D stay in
  let total := estimate_total req alloc stay drafts in
  let costs := reconcile total lodging flights (day_cost <$> drafts) in
  let days :=
    imap (λ i '(acts, cost),
            let weather := mjoin (ci_daily ctx !! i) in
            let text := narrative narrate (S i) (tr_destination req) acts weather in
            {| dp_index := S i;
               dp_title := text.1;
               dp_description := text.2;
               dp_activities := acts;
               dp_accommodation := stay;
               dp_estimated_cost := cost;
               dp_weather := weather |})
         (zip drafts costs) in
  {| it_destination := tr_destination req;
     it_duration := D;
     it_days := days;
     it_total_estimated_cost :=
       {| cb_flights := flights; cb_accommodation := lodging; cb_total := total |};
     it_disclaimer := disclaimer;
     it_degraded :=
       fallback_used alloc || stay_degraded stay
       || existsb is_placeholder (mjoin drafts) |}.

(** Every activity an itinerary schedules, in day order. *)
Definition scheduled (it : Itinerary) : list ScheduledActivity :=
  mjoin (dp_activities <$> it_days it).

Definition scheduled_id (a : ScheduledActivity) : option string :=
  match sa_pick a with
  | Candidate c => Some (candidate_id c)
  | ExploreIndependently => None
  end.

Definition scheduled_category (a : ScheduledActivity) : option string :=
  match sa_pick a with
  | Candidate c => Some (candidate_category c)
  | ExploreIndependently => None
  end.

(** *** A sample trip *)

(** A service that never answers. *)
Definition service_down : nat → ServiceReply := λ _, Unreachable.

Definition scenario_request : TripRequest := {|
  tr_origin := "Pune";
  tr_destination := "Lisbon";
  tr_start := 20000;
  tr_end := 20005;
  tr_strict_dates := true;
  tr_budget := 300000;
  tr_travelers := 2;
  tr_travel_mode := "plane";
  tr_activities := ["food"; "culture"];
  tr_hotel_tier := "mid-range";
  tr_prior_visit := false
|}.

Definition lisbon (id category title : string) (cost : Z) : CatalogEntry := {|
  ce_id := id;
  ce_category := category;
  ce_title := title;
  ce_location := "Lisbon";
  ce_cost := cost;
  ce_tags := []
|}.

Definition scenario_catalog : list CatalogEntry := [
  lisbon "a1" "food" "Market tour" 6000;
  lisbon "a2" "culture" "Tile museum" 2000;
  lisbon "a3" "food" "Tapas evening" 4000;
  lisbon "a4" "culture" "Opera night" 20000;
  lisbon "h1" "hotel" "Alfama rooms" 15000;
  lisbon "h2" "hotel" "Palace suites" 40000
].

Definition scenario_score (e : CatalogEntry) : Z :=
  (1000 - Z.of_nat (String.length (ce_title e)))%Z.

Definition scenario_candidates : Candidates := {|
  c_flights := [];
  c_hotels := rank scenario_score "hotel" scenario_catalog;
  c_activities :=
    rank scenario_score "food" scenario_catalog
    ++ rank scenario_score "culture" scenario_catalog
|}.

Definition scenario_context : ContextInfo := {|
  ci_daily := [Some {| w_condition := "sunny"; w_low := 14; w_high := 23 |}];
  ci_summary := Some "mild";
  ci_seasonal_tips := [];
  ci_packing := []
|}.

(** A grand total that itemises flights, lodging, activities, food and
    transportation. *)
Definition itemised_total (req : TripRequest) (alloc : BudgetAllocation)
    (stay : Stay) (drafts : list (list ScheduledActivity)) : Z :=
  (amount alloc Flights + accommodation_total (duration req) stay
   + sum_list (day_cost <$> drafts)
   + amount alloc Food + amount alloc Transportation)%Z.

(** A language-model service that is down. *)
Definition no_narration (n : nat) (acts : list ScheduledActivity)
    (w : option Weather) : option (string * string) := None.

Definition scenario_allocation : BudgetAllocation :=
  allocate Accommodation service_down scenario_request.

Definition scenario_itinerary : Itinerary :=
  synthesize itemised_total no_narration scenario_request scenario_allocation
    scenario_candidates scenario_context.

(** *** Retrieval agent and the operation of the core *)

(** Modelled from the spec: what the missing Retrieval Agent records about
    a list it returns: the filters held, the cost filter was relaxed, the
    location filter was relaxed too, or the embedding service could not be
    reached. *)
Inductive Relaxation : Type :=
  | Unrelaxed
  | CostRelaxed
  | LocationRelaxed
  | EmbeddingUnavailable.

(** Modelled from the spec: the cap on a returned list and the least number of candidates the
    filters must leave. *)
Definition top_k : nat := 10.
Definition min_candidates : nat := 3.

(** Modelled from the spec: the cost filter of the Retrieval Agent.  The
    cost must not exceed the allocated amount scaled by 1.15 and divided by
    [sharers], the traveler count where the division applies and 1 where it
    does not. *)
Definition within_cost (allocated sharers : Z) (c : RankedCandidate) : Prop :=
  (candidate_cost c * 100 * sharers ≤ allocated * 115)%Z.

#[global] Instance within_cost_dec (allocated sharers : Z) (c : RankedCandidate) :
  Decision (within_cost allocated sharers c).
Proof. unfold within_cost. apply _. Defined.

(** Modelled from the spec: the candidate with its post-filter cost flag set when it is over the
    limit. *)
Definition flag_cost (allocated sharers : Z) (c : RankedCandidate)
  : RankedCandidate :=
  {| rc_entry := rc_entry c;
     rc_score := rc_score c;
     rc_cost_flag := bool_decide (¬ within_cost allocated sharers c) |}.

(** Modelled from the spec: the hard filter of the Retrieval Agent with its
    relaxation.  Location and cost are required; when fewer than
    [min_candidates] remain the cost filter is dropped, then the location
    filter; the list is capped at [top_k].  [same_place] is the
    case-insensitive comparison of locations. *)
Definition filter_candidates (same_place : string → string → bool)
    (destination : string) (allocated sharers : Z)
    (ranked : list RankedCandidate) : list RankedCandidate * Relaxation :=
  let nearby :=
    filter (λ c, same_place (ce_location (rc_entry c)) destination = true)
      ranked in
  let strict := filter (within_cost allocated sharers) nearby in
  if decide (min_candidates ≤ length strict)
  then (take top_k strict, Unrelaxed)
  else if decide (min_candidates ≤ length nearby)
  then (take top_k (flag_cost allocated sharers <$> nearby), CostRelaxed)
  else (take top_k (flag_cost allocated sharers <$> ranked), LocationRelaxed).

(** Modelled from the spec: retrieval for one category by the missing
    Retrieval Agent.  [scoring] stands for the query, its embedding and the
    similarity to an entry; it gives [None] when the embedding backend is
    unreachable, and the list is then empty. *)
Definition retrieve_category
    (scoring : TripRequest → string → option (CatalogEntry → Z))
    (same_place : string → string → bool) (req : TripRequest)
    (allocated sharers : Z) (category : string) (catalog : list CatalogEntry)
  : list RankedCandidate * Relaxation :=
  match scoring req category with
  | Some score =>
      filter_candidates same_place (tr_destination req) allocated sharers
        (rank score category catalog)
  | None => ([], EmbeddingUnavailable)
  end.

Definition flight_category : string := "flight".
Definition hotel_category : string := "hotel".

(** Modelled from the spec: what the Retrieval Agent returns: the candidate lists and what it
    records about each. *)
Record Retrieved : Type := {
  rt_candidates : Candidates;
  rt_flights : Relaxation;
  rt_hotels : Relaxation;
  rt_activities : list (string * Relaxation)
}.

(** Modelled from the spec: the Retrieval Agent, whose source
    ([services/search_agent.py]) is missing.  Flights, hotels, and the
    activities of every desired category are ranked and filtered against the
    allocation; [per_traveler] tells for which spending category the limit is
    divided by the traveler count. *)
Definition retrieve
    (scoring : TripRequest → string → option (CatalogEntry → Z))
    (same_place : string → string → bool) (per_traveler : Category → bool)
    (catalog : list CatalogEntry) (req : TripRequest) (alloc : BudgetAllocation)
  : Retrieved :=
  let one spending category :=
    retrieve_category scoring same_place req (amount alloc spending)
      (if per_traveler spending then tr_travelers req else 1%Z)
      category catalog in
  let flights := one Flights flight_category in
  let hotels := one Accommodation hotel_category in
  let acts := (λ category, (category, one Activities category))
                <$> tr_activities req in
  {| rt_candidates :=
       {| c_flights := flights.1;
          c_hotels := hotels.1;
          c_activities := mjoin ((λ p, p.2.1) <$> acts) |};
     rt_flights := flights.2;
     rt_hotels := hotels.2;
     rt_activities := (λ p, (p.1, p.2.2)) <$> acts |}.

#[global] Instance valid_request_dec (r : TripRequest) : Decision (valid_request r).
Proof. unfold valid_request. apply _. Defined.

Inductive CoreError : Type :=
  | InvalidRequest.

(** Modelled from the spec: [synthesize(tripRequest)], the one operation the
    core exposes; the sources of the agents it runs are missing.  A
    structurally invalid request fails; otherwise the allocator, the
    retrieval agent and the context agent run and their outputs go to the
    Itinerary Synthesizer. *)
Definition core_synthesize
    (designated : Category) (service : nat → ServiceReply)
    (scoring : TripRequest → string → option (CatalogEntry → Z))
    (same_place : string → string → bool) (per_traveler : Category → bool)
    (context_agent : TripRequest → ContextInfo)
    (estimate_total : TripRequest → BudgetAllocation → Stay
                      → list (list ScheduledActivity) → Z)
    (narrate : nat → list ScheduledActivity → option Weather
               → option (string * string))
    (catalog : list CatalogEntry) (req : TripRequest)
  : CoreError + Itinerary :=
  if decide (valid_request req) then
    let alloc := allocate designated service req in
    let found := retrieve scoring same_place per_traveler catalog req alloc in
    inr (synthesize estimate_total narrate req alloc (rt_candidates found)
           (context_agent req))
  else inl InvalidRequest.

(** Two entries that differ in their id only. *)
Definition twin_catalog : list CatalogEntry := [
  lisbon "t1" "food" "Market tour" 6000;
  lisbon "t2" "food" "Market tour" 6000
].

(** The sample trip through the whole core: every query is scored by
    [scenario_score], places are compared as they are written. *)
Definition scenario_scoring (req : TripRequest) (category : string)
  : option (CatalogEntry → Z) := Some scenario_score.

Definition scenario_run (catalog : list CatalogEntry) : CoreError + Itinerary :=
  core_synthesize Accommodation service_down scenario_scoring String.eqb
    (λ spending, bool_decide (spending = Flights))
    (λ _, scenario_context) itemised_total no_narration catalog
    scenario_request.

End Core.

(** ** Facts about comparison functions *)

Module OrdersFacts.
Import Orders.

Lemma ascii_compare_code (c c' : ascii) :
  Ascii.compare c c' = (JS.code c ?= JS.code c')%Z.
Proof. unfold Ascii.compare, JS.code. by rewrite N2Z.inj_compare. Qed.

Lemma Z_order_cmp : order_cmp Z.compare.
Proof.
  split.
  - apply Z.compare_refl.
  - apply Z.compare_eq.
  - intros x y. apply Z.compare_antisym.
  - intros x y z. rewrite !Z.compare_lt_iff. lia.
Qed.

Lemma string_compare_trans (x y z : string) :
  String.compare x y = Lt → String.compare y z = Lt → String.compare x z = Lt.
Proof.
  revert y z. induction x as [|a x IH]; intros [|b y] [|c z]; try done.
  cbn [String.compare]. rewrite !ascii_compare_code.
  destruct (Z.compare_spec (JS.code a) (JS.code b)),
    (Z.compare_spec (JS.code b) (JS.code c)),
    (Z.compare_spec (JS.code a) (JS.code c)); try done; try lia.
  apply IH.
Qed.

Lemma string_order_cmp : order_cmp String.compare.
Proof.
  split.
  - intros x. induction x as [|a x IH]; [done|]. cbn [String.compare].
    by rewrite ascii_compare_code, Z.compare_refl.
  - apply String.compare_eq_iff.
  - intros x y. apply String.compare_antisym.
  - apply string_compare_trans.
Qed.

Lemma lex_order_cmp {A B : Type} (ca : A → A → comparison)
    (cb : B → B → comparison) :
  order_cmp ca → order_cmp cb → order_cmp (lex ca cb).
Proof.
  intros Ha Hb. split; unfold lex.
  - intros [a b]. cbn. by rewrite (cmp_refl _ Ha), (cmp_refl _ Hb).
  - intros [a b] [a' b']. cbn. destruct (ca a a') eqn:Hc; [|done..].
    intros Hd. by rewrite (cmp_eq _ Ha _ _ Hc), (cmp_eq _ Hb _ _ Hd).
  - intros [a b] [a' b']. cbn. rewrite (cmp_opp _ Ha a a').
    destruct (ca a a'); cbn; [|done..]. apply (cmp_opp _ Hb).
  - intros [a b] [a' b'] [a'' b'']. cbn.
    destruct (ca a a') eqn:H1; [|intros _|done];
      (destruct (ca a' a'') eqn:H2; [|intros _|done]).
    + apply (cmp_eq _ Ha) in H1 as ->. apply (cmp_eq _ Ha) in H2 as ->.
      rewrite (cmp_refl _ Ha). apply (cmp_trans _ Hb).
    + apply (cmp_eq _ Ha) in H1 as ->. by rewrite H2.
    + intros _. apply (cmp_eq _ Ha) in H2 as <-. by rewrite H1.
    + by rewrite (cmp_trans _ Ha _ _ _ H1 H2).
Qed.

(** The weak order of a comparison, [cmp x y ≠ Gt], is transitive, total and
    antisymmetric. *)
Lemma cmp_le_trans {A : Type} (cmp : A → A → comparison) (x y z : A) :
  order_cmp cmp → cmp x y ≠ Gt → cmp y z ≠ Gt → cmp x z ≠ Gt.
Proof.
  intros H Hxy Hyz.
  destruct (cmp x y) eqn:H1; [| |done].
  - by apply (cmp_eq _ H) in H1 as ->.
  - destruct (cmp y z) eqn:H2; [| |done].
    + apply (cmp_eq _ H) in H2 as <-. by rewrite H1.
    + by rewrite (cmp_trans _ H _ _ _ H1 H2).
Qed.

Lemma cmp_le_total {A : Type} (cmp : A → A → comparison) (x y : A) :
  order_cmp cmp → cmp x y ≠ Gt ∨ cmp y x ≠ Gt.
Proof.
  intros H. rewrite (cmp_opp _ H x y). destruct (cmp x y); cbn; auto.
Qed.

Lemma cmp_le_antisym {A : Type} (cmp : A → A → comparison) (x y : A) :
  order_cmp cmp → cmp x y ≠ Gt → cmp y x ≠ Gt → x = y.
Proof.
  intros H Hxy. rewrite (cmp_opp _ H x y).
  destruct (cmp x y) eqn:H1; cbn; [|done..]. intros _. by apply (cmp_eq _ H).
Qed.

End OrdersFacts.

(** ** Facts about the trip form *)

Module FrontendFacts.
Import Frontend.

(** *** The errors object *)

Lemma lookup_record_if_ne (c : bool) (k k' v : string) (m : gmap string string) :
  k ≠ k' → record_if c k v m !! k' = m !! k'.
Proof.
  intros Hne. unfold record_if. destruct c; [|done].
  by rewrite lookup_insert_ne.
Qed.

Lemma lookup_record_if_eq (c : bool) (k v : string) (m : gmap string string) :
  record_if c k v m !! k = if c then Some v else m !! k.
Proof.
  unfold record_if. destruct c; [|done]. by rewrite lookup_insert_eq.
Qed.

Ltac errors_lookup :=
  unfold validateForm; cbn [fst];
  repeat first
    [ rewrite lookup_record_if_eq
    | rewrite lookup_record_if_ne by discriminate
    | rewrite lookup_empty ].

Lemma errors_endDate (f : TravelFormData) :
  (validateForm f).1 !! "endDate" =
    if JS.truthy (startDate f) && JS.truthy (endDate f)
       && JS.string_ge (startDate f) (endDate f)
    then Some "End date must be after start date"
    else if negb (JS.truthy (endDate f)) then Some "End date is required"
    else None.
Proof. by errors_lookup. Qed.

Lemma errors_budget (f : TravelFormData) :
  (validateForm f).1 !! "budget" =
    if negb (JS.truthy (budget f)) || JS.le (JS.parseInt (budget f)) (JS.Int 0)
    then Some "Valid budget is required"
    else None.
Proof. by errors_lookup. Qed.

Lemma errors_activities (f : TravelFormData) :
  (validateForm f).1 !! "activities" =
    if length (activities f) =? 0
    then Some "Please select at least one activity"
    else None.
Proof. by errors_lookup. Qed.

(** A recorded error makes [validateForm] return [false], and then
    [handleSubmit] does not call [onSubmit]. *)
Lemma error_rejects (f : TravelFormData) (k : string) :
  is_Some ((validateForm f).1 !! k) →
  (validateForm f).2 = false ∧ handleSubmit f = None.
Proof.
  intros [v Hv].
  assert ((validateForm f).2 = false) as Hr.
  { change ((validateForm f).2) with (size (validateForm f).1 =? 0).
    apply Nat.eqb_neq. intros Hsz. apply map_size_empty_iff in Hsz.
    rewrite Hsz, lookup_empty in Hv. discriminate. }
  split; [done|]. unfold handleSubmit. by rewrite Hr.
Qed.

(** *** Comparing ISO dates as strings *)

Lemma compare_app_same_length (a b x y : string) :
  String.length a = String.length b →
  String.compare (a +:+ x) (b +:+ y) =
    match String.compare a b with
    | Eq => String.compare x y
    | c => c
    end.
Proof.
  revert b. induction a as [|c a IH]; intros [|c' b] Hlen; try discriminate.
  - done.
  - change (String c a +:+ x) with (String c (a +:+ x)).
    change (String c' b +:+ y) with (String c' (b +:+ y)).
    cbn [String.compare].
    destruct (Ascii.compare c c'); [|done..].
    apply IH. by injection Hlen.
Qed.

Lemma decimal_bounds (s : string) (v : Z) :
  decimal s = Some v → (0 ≤ v < 10 ^ Z.of_nat (String.length s))%Z.
Proof.
  revert v. induction s as [|c s IH]; intros v Hv; cbn in Hv.
  - injection Hv as <-. cbn. lia.
  - destruct (is_digit c) eqn:Hc; [|discriminate].
    destruct (decimal s) as [w|]; [|discriminate].
    injection Hv as <-. specialize (IH w eq_refl).
    unfold is_digit in Hc. cbn [String.length].
    rewrite Nat2Z.inj_succ, Z.pow_succ_r by lia. nia.
Qed.

Lemma decimal_compare (a b : string) (va vb : Z) :
  decimal a = Some va → decimal b = Some vb →
  String.length a = String.length b →
  String.compare a b = (va ?= vb)%Z.
Proof.
  revert b va vb.
  induction a as [|c a IH]; intros [|c' b] va vb Ha Hb Hlen; try discriminate.
  - cbn in *. by simplify_eq.
  - cbn in Ha, Hb. cbn [String.compare].
    destruct (is_digit c); [|discriminate].
    destruct (is_digit c'); [|discriminate].
    destruct (decimal a) as [wa|] eqn:Hwa; [|discriminate].
    destruct (decimal b) as [wb|] eqn:Hwb; [|discriminate].
    injection Ha as <-. injection Hb as <-. injection Hlen as Hlen.
    pose proof (decimal_bounds _ _ Hwa) as Hba.
    pose proof (decimal_bounds _ _ Hwb) as Hbb.
    rewrite (IH b wa wb) by done. rewrite OrdersFacts.ascii_compare_code, Hlen in *.
    set (P := (10 ^ Z.of_nat (String.length b))%Z) in *.
    destruct (Z.compare_spec (JS.code c) (JS.code c')) as [Heq|Hlt|Hgt].
    + rewrite Heq. by rewrite Z.add_compare_mono_l.
    + symmetry. apply Z.compare_lt_iff. nia.
    + symmetry. apply Z.compare_gt_iff. nia.
Qed.

(** The shape of a string that [parse_iso_date] accepts. *)
Lemma parse_iso_date_shape (s : string) (d : Date) :
  parse_iso_date s = Some d →
  ∃ y m dd : string,
    s = y +:+ "-" +:+ m +:+ "-" +:+ dd ∧
    String.length y = 4 ∧ String.length m = 2 ∧ String.length dd = 2 ∧
    decimal y = Some (year d) ∧ decimal m = Some (month d) ∧
    decimal dd = Some (day d).
Proof.
  unfold parse_iso_date. intros H.
  destruct (String.length s =? 10) eqn:Hlen; [|discriminate].
  apply Nat.eqb_eq in Hlen.
  destruct s as [|c0 [|c1 [|c2 [|c3 [|c4 [|c5 [|c6 [|c7 [|c8 [|c9 [|]]]]]]]]]]];
    try discriminate.
  clear Hlen. cbn [negb String.get] in H.
  case_bool_decide as H4; [|discriminate]. injection H4 as ->.
  case_bool_decide as H7; [|discriminate]. injection H7 as ->.
  cbn [negb String.substring] in H.
  exists (String c0 (String c1 (String c2 (String c3 EmptyString)))),
    (String c5 (String c6 EmptyString)), (String c8 (String c9 EmptyString)).
  destruct (decimal (String c0 _)) as [vy|]; [|discriminate].
  destruct (decimal (String c5 _)) as [vm|]; [|discriminate].
  destruct (decimal (String c8 _)) as [vd|]; [|discriminate].
  match type of H with (if ?c then _ else _) = _ => destruct c end;
    [|discriminate].
  injection H as <-. done.
Qed.

Lemma iso_compare (s e : string) (ds de : Date) :
  parse_iso_date s = Some ds → parse_iso_date e = Some de →
  String.compare s e = date_compare ds de.
Proof.
  intros (y & m & d & -> & Hy & Hm & Hd & Vy & Vm & Vd)%parse_iso_date_shape.
  intros (y' & m' & d' & -> & Hy' & Hm' & Hd' & Vy' & Vm' & Vd')%parse_iso_date_shape.
  unfold date_compare.
  rewrite compare_app_same_length by congruence.
  rewrite (decimal_compare y y' _ _ Vy Vy') by congruence.
  destruct (year ds ?= year de)%Z; [|done..].
  change (String.compare ("-" +:+ ?a) ("-" +:+ ?b)) with (String.compare a b).
  rewrite compare_app_same_length by congruence.
  rewrite (decimal_compare m m' _ _ Vm Vm') by congruence.
  destruct (month ds ?= month de)%Z; [|done..].
  change (String.compare ("-" +:+ ?a) ("-" +:+ ?b)) with (String.compare a b).
  apply decimal_compare; congruence.
Qed.

Lemma parse_iso_date_truthy (s : string) (d : Date) :
  parse_iso_date s = Some d → JS.truthy s = true.
Proof. destruct s; [discriminate|done]. Qed.

Lemma date_compare_antisym (a b : Date) :
  date_compare b a = CompOpp (date_compare a b).
Proof.
  unfold date_compare.
  rewrite (Z.compare_antisym (year a)), (Z.compare_antisym (month a)),
    (Z.compare_antisym (day a)).
  destruct (year a ?= year b)%Z, (month a ?= month b)%Z; done.
Qed.

(** *** Reading decimal numerals *)

Lemma digit_value_10 (c : ascii) :
  is_digit c = true → JS.digit_value 10 c = Some (JS.code c - 48)%Z.
Proof.
  unfold is_digit, JS.digit_value. intros Hc. rewrite Hc.
  apply andb_prop in Hc as [H1 H2].
  apply Z.leb_le in H1. apply Z.leb_le in H2.
  by rewrite (proj2 (Z.ltb_lt _ _)) by lia.
Qed.

Lemma read_digits_decimal (s tail : string) (v acc : Z) :
  decimal s = Some v → ends_digits tail →
  JS.read_digits 10 (s +:+ tail) acc true
    = JS.Int (acc * 10 ^ Z.of_nat (String.length s) + v).
Proof.
  intros Hv Htail. revert v acc Hv.
  induction s as [|c s IH]; intros v acc Hv; cbn in Hv.
  - injection Hv as <-. change (EmptyString +:+ tail) with tail.
    replace (acc * 10 ^ Z.of_nat (String.length "") + 0)%Z with acc
      by (cbn; lia).
    by destruct Htail as [->|[r ->]].
  - destruct (is_digit c) eqn:Hc; [|discriminate].
    destruct (decimal s) as [w|]; [|discriminate]. injection Hv as <-.
    change (String c s +:+ tail) with (String c (s +:+ tail)).
    cbn [JS.read_digits String.length]. rewrite digit_value_10 by done.
    rewrite (IH w) by done. f_equal.
    rewrite Nat2Z.inj_succ, Z.pow_succ_r by lia. lia.
Qed.

Lemma is_digit_not_white_space (c : ascii) :
  is_digit c = true → JS.is_white_space c = false.
Proof.
  unfold is_digit, JS.is_white_space. intros Hc.
  apply andb_prop in Hc as [H1 H2].
  apply Z.leb_le in H1. apply Z.leb_le in H2.
  apply not_true_iff_false. intros H.
  rewrite !orb_true_iff, andb_true_iff, !Z.leb_le, !Z.eqb_eq in H. lia.
Qed.

Lemma is_digit_not_char (c c' : ascii) :
  is_digit c' = false → is_digit c = true → Ascii.eqb c c' = false.
Proof.
  intros Hc' Hc. destruct (Ascii.eqb_spec c c') as [->|]; [|done]. congruence.
Qed.

(** [parseInt] of a non-empty string of digits, possibly followed by a full
    stop and more, is the number the digits write. *)
Lemma parseInt_digits (s tail : string) (v : Z) :
  JS.truthy s = true → decimal s = Some v → ends_digits tail →
  JS.parseInt (s +:+ tail) = JS.Int v.
Proof.
  destruct s as [|c s]; [discriminate|]. intros _ Hv Htail.
  pose proof Hv as Hv'. cbn in Hv'.
  destruct (is_digit c) eqn:Hc; [|discriminate].
  destruct (decimal s) as [w|] eqn:Hw; [|discriminate]. clear Hv'.
  change (String c s +:+ tail) with (String c (s +:+ tail)).
  unfold JS.parseInt. cbn [JS.trimStart].
  rewrite is_digit_not_white_space by done.
  rewrite !(is_digit_not_char c) by done.
  assert (match s +:+ tail with
          | String c1 _ => Ascii.eqb c "0" && (Ascii.eqb c1 "x" || Ascii.eqb c1 "X")
          | EmptyString => false
          end = false) as Hhex.
  { destruct s as [|c1 r].
    - destruct Htail as [->|[r ->]]; [done|].
      change (EmptyString +:+ String "."%char r) with (String "."%char r).
      cbn. by rewrite andb_false_r.
    - change (String c1 r +:+ tail) with (String c1 (r +:+ tail)). cbn in Hw.
      destruct (is_digit c1) eqn:Hc1; [|discriminate].
      rewrite !(is_digit_not_char c1) by done.
      by rewrite andb_false_r. }
  assert (JS.read_digits 10 (String c (s +:+ tail)) 0 false = JS.Int v) as Hread.
  { cbn [JS.read_digits]. rewrite digit_value_10 by done.
    rewrite (read_digits_decimal s tail w) by done.
    cbn in Hv. rewrite Hc, Hw in Hv. injection Hv as <-. f_equal; lia. }
  destruct (s +:+ tail) as [|c1 r]; [|rewrite Hhex]; rewrite Hread; f_equal; lia.
Qed.

(** [parseInt] of a minus sign followed by such a string is the opposite of
    that number. *)
Lemma parseInt_minus_digits (s tail : string) (v : Z) :
  JS.truthy s = true → decimal s = Some v → ends_digits tail →
  JS.parseInt (String "-" (s +:+ tail)) = JS.Int (- v).
Proof.
  intros Hs Hv Htail. pose proof (parseInt_digits s tail v Hs Hv Htail) as Hp.
  destruct s as [|c s]; [discriminate|].
  pose proof Hv as Hv'. cbn in Hv'.
  destruct (is_digit c) eqn:Hc; [|discriminate]. clear Hv'.
  change (String c s +:+ tail) with (String c (s +:+ tail)) in *.
  unfold JS.parseInt in *. cbn [JS.trimStart] in *.
  rewrite is_digit_not_white_space in Hp by done.
  rewrite !(is_digit_not_char c) in Hp by done.
  change (JS.is_white_space "-") with false. cbn [Ascii.eqb Bool.eqb].
  destruct (s +:+ tail) as [|c1 r].
  - destruct (JS.read_digits 10 _ 0 false); [done|].
    injection Hp as Hp. f_equal. lia.
  - destruct (Ascii.eqb c "0" && (Ascii.eqb c1 "x" || Ascii.eqb c1 "X"));
      (destruct (JS.read_digits _ _ 0 false); [done|];
       injection Hp as Hp; f_equal; lia).
Qed.

Lemma split_point_shape (s i : string) (f : option string) :
  split_point s = (i, f) →
  s = i +:+ match f with
            | Some r => String "." r
            | None => EmptyString
            end.
Proof.
  revert i f. induction s as [|c s IH]; intros i f H; cbn in H.
  - by simplify_eq.
  - destruct (Ascii.eqb_spec c ".") as [->|Hne]; [by simplify_eq|].
    destruct (split_point s) as [i' f']. simplify_eq.
    change (String c i' +:+ ?t) with (String c (i' +:+ t)). f_equal.
    by apply IH.
Qed.

(** What [parseInt] reads from a decimal numeral: its whole part, which is
    not positive exactly when the amount is below one. *)
Lemma numeral_parseInt (s : string) (a : Amount) :
  amount_of_string s = Some a →
  ∃ n : Z, JS.parseInt s = JS.Int n ∧ JS.truthy s = true ∧
           ((n ≤ 0)%Z ↔ (mantissa a < 10 ^ Z.of_nat (decimals a))%Z).
Proof.
  unfold amount_of_string.
  destruct (split_sign s) as [neg body] eqn:Hsign.
  destruct (split_point body) as [i f] eqn:Hsplit.
  destruct (JS.truthy i && _) eqn:Hcond; [|discriminate].
  apply andb_prop in Hcond as [Hi _].
  destruct (decimal i) as [vi|] eqn:Hvi; [|discriminate].
  destruct (decimal (default EmptyString f)) as [vf|] eqn:Hvf; [|discriminate].
  intros [= <-]. cbn [mantissa decimals].
  pose proof (decimal_bounds _ _ Hvi) as Hbi.
  pose proof (decimal_bounds _ _ Hvf) as Hbf.
  set (P := (10 ^ Z.of_nat (String.length (default EmptyString f)))%Z) in *.
  apply split_point_shape in Hsplit.
  assert (ends_digits match f with
                      | Some r => String "." r
                      | None => EmptyString
                      end) as Htail
    by (destruct f; [right; by eexists|by left]).
  unfold split_sign in Hsign. destruct s as [|c r].
  { injection Hsign as <- <-. by destruct i. }
  destruct (Ascii.eqb_spec c "-") as [->|Hne]; injection Hsign as <- <-.
  - exists (- vi)%Z. rewrite Hsplit, (parseInt_minus_digits i _ vi) by done.
    split_and!; [done..|]. nia.
  - exists vi. rewrite Hsplit, (parseInt_digits i _ vi) by done.
    split_and!; [done| |nia]. by destruct i.
Qed.

(** *** Toggling an activity *)

Lemma toggle_NoDup (a : string) (l : list string) :
  NoDup l → NoDup (toggle a l).
Proof.
  intros Hl. unfold toggle. case_bool_decide as Hin.
  - by apply NoDup_filter.
  - apply NoDup_app. split_and!; [done| |apply NoDup_singleton].
    intros x Hx Hxa. apply list_elem_of_singleton in Hxa. by subst.
Qed.

Lemma filter_ne_absent (a : string) (l : list string) :
  a ∉ l → filter (λ x, x ≠ a) l = l.
Proof.
  induction l as [|x l IH]; intros Hnin; [done|].
  apply not_elem_of_cons in Hnin as [Hne Hnin].
  rewrite filter_cons_True by done. by rewrite IH.
Qed.

Lemma toggle_toggle_absent (a : string) (l : list string) :
  a ∉ l → toggle a (toggle a l) = l.
Proof.
  intros Hnin. unfold toggle at 2. rewrite bool_decide_eq_false_2 by done.
  unfold toggle. rewrite bool_decide_eq_true_2 by set_solver.
  rewrite filter_app, filter_ne_absent by done.
  rewrite filter_cons_False by (intros H; by apply H).
  by rewrite filter_nil, app_nil_r.
Qed.

(** C1: when [startDate] and [endDate] both hold ISO dates, [validateForm]
    records an error for [endDate] exactly when the end date is on or before
    the start date; the form is then rejected and not submitted, and an end
    date strictly after the start date leaves [endDate] without error. *)
Theorem C1_end_date_error_iff_not_after (f : TravelFormData) (ds de : Date) :
  parse_iso_date (startDate f) = Some ds →
  parse_iso_date (endDate f) = Some de →
  (is_Some ((validateForm f).1 !! "endDate") ↔ date_le de ds) ∧
  (date_le de ds →
     (validateForm f).1 !! "endDate" = Some "End date must be after start date" ∧
     (validateForm f).2 = false ∧ handleSubmit f = None) ∧
  (date_lt ds de → (validateForm f).1 !! "endDate" = None).
Proof.
  intros Hs He.
  assert ((validateForm f).1 !! "endDate" =
            if decide (date_le de ds)
            then Some "End date must be after start date" else None) as Herr.
  { rewrite errors_endDate.
    rewrite (parse_iso_date_truthy _ _ Hs), (parse_iso_date_truthy _ _ He).
    unfold JS.string_ge, date_le.
    rewrite (iso_compare _ _ _ _ Hs He), (date_compare_antisym ds de).
    destruct (date_compare ds de); cbn; by case_decide. }
  split_and!.
  - rewrite Herr. case_decide; [done|]. split; [by intros [? ?]|done].
  - intros Hle. rewrite decide_True in Herr by done. split; [done|].
    apply (error_rejects f "endDate"). rewrite Herr. by eexists.
  - intros Hlt. rewrite Herr, decide_False; [done|].
    unfold date_le, date_lt in *. rewrite date_compare_antisym, Hlt. by intros [].
Qed.

Lemma C1_end_date_error_iff_not_after_witness :
  let f := sample_form "2025-03-10" "2025-03-05" "3000" in
  (is_Some ((validateForm f).1 !! "endDate")
     ↔ date_le {| year := 2025; month := 3; day := 5 |}
               {| year := 2025; month := 3; day := 10 |}) ∧
  (date_le {| year := 2025; month := 3; day := 5 |}
           {| year := 2025; month := 3; day := 10 |} →
     (validateForm f).1 !! "endDate" = Some "End date must be after start date" ∧
     (validateForm f).2 = false ∧ handleSubmit f = None) ∧
  (date_lt {| year := 2025; month := 3; day := 10 |}
           {| year := 2025; month := 3; day := 5 |} →
     (validateForm f).1 !! "endDate" = None).
Proof.
  intros f.
  apply (C1_end_date_error_iff_not_after f
           {| year := 2025; month := 3; day := 10 |}
           {| year := 2025; month := 3; day := 5 |}); reflexivity.
Defined.

(** C2, as stated, fails: the budget [0.5] denotes a positive amount, and
    [validateForm] records a budget error for it. *)
Lemma C2_budget_error_counterexample :
  ¬ (∀ f : TravelFormData,
       is_Some ((validateForm f).1 !! "budget")
       ↔ denotes_positive_amount (budget f) = false).
Proof.
  intros Hclaim.
  destruct (Hclaim (sample_form "2025-03-05" "2025-03-10" "0.5")) as [Himp _].
  rewrite errors_budget in Himp.
  assert (denotes_positive_amount "0.5" = false) as Hpos
    by (apply Himp; vm_compute; by eexists).
  vm_compute in Hpos. discriminate.
Qed.

(** A budget that is not a number at all passes the budget check: [parseInt]
    gives [NaN], and [NaN <= 0] is [false]. *)
Lemma budget_not_a_number_passes :
  let f := sample_form "2025-03-05" "2025-03-10" "abc" in
  denotes_positive_amount (budget f) = false ∧
  (validateForm f).1 !! "budget" = None ∧
  handleSubmit f = Some f.
Proof. vm_compute. done. Qed.

(** C2, amended: when the budget field holds a decimal numeral (an optional
    minus sign, digits, optionally a full stop and digits), [validateForm]
    records a budget error exactly when the amount is below one, that is
    when its whole part is not positive; a budget that is not positive is
    then rejected and not submitted, and a budget of at least one leaves
    [budget] without error. *)
Theorem C2_budget_error_iff_below_one (f : TravelFormData) (a : Amount) :
  amount_of_string (budget f) = Some a →
  (is_Some ((validateForm f).1 !! "budget")
     ↔ (mantissa a < 10 ^ Z.of_nat (decimals a))%Z) ∧
  ((mantissa a ≤ 0)%Z →
     (validateForm f).1 !! "budget" = Some "Valid budget is required" ∧
     (validateForm f).2 = false ∧ handleSubmit f = None) ∧
  ((10 ^ Z.of_nat (decimals a) ≤ mantissa a)%Z →
     (validateForm f).1 !! "budget" = None).
Proof.
  intros (n & Hparse & Htruthy & Hn)%numeral_parseInt.
  assert ((validateForm f).1 !! "budget" =
            if decide (mantissa a < 10 ^ Z.of_nat (decimals a))%Z
            then Some "Valid budget is required" else None) as Herr.
  { rewrite errors_budget, Hparse, Htruthy. cbn [negb orb JS.le].
    destruct (Z.leb_spec n 0); case_decide; done || lia. }
  assert (0 < 10 ^ Z.of_nat (decimals a))%Z as Hpow by lia.
  split_and!.
  - rewrite Herr. case_decide; [done|]. split; [by intros [? ?]|done].
  - intros Hle. rewrite decide_True in Herr by lia. split; [done|].
    apply (error_rejects f "budget"). rewrite Herr. by eexists.
  - intros Hge. rewrite Herr, decide_False; [done|lia].
Qed.

Lemma C2_budget_error_iff_below_one_witness :
  let f := sample_form "2025-03-05" "2025-03-10" "3000" in
  let a := {| mantissa := 3000; decimals := 0 |} in
  (is_Some ((validateForm f).1 !! "budget")
     ↔ (mantissa a < 10 ^ Z.of_nat (decimals a))%Z) ∧
  ((mantissa a ≤ 0)%Z →
     (validateForm f).1 !! "budget" = Some "Valid budget is required" ∧
     (validateForm f).2 = false ∧ handleSubmit f = None) ∧
  ((10 ^ Z.of_nat (decimals a) ≤ mantissa a)%Z →
     (validateForm f).1 !! "budget" = None).
Proof.
  intros f a. apply (C2_budget_error_iff_below_one f a). reflexivity.
Defined.

(** C3: [validateForm] records an error for the [activities] field exactly
    when no activity is selected; that error makes [validateForm] return
    [false], so [handleSubmit] does not submit the form, and a form with at
    least one selected activity has no [activities] error. *)
Theorem C3_activities_error_iff_empty (f : TravelFormData) :
  ((validateForm f).1 !! "activities"
     = Some "Please select at least one activity" ↔ activities f = []) ∧
  ((validateForm f).1 !! "activities" = None ↔ activities f ≠ []) ∧
  (activities f = [] → (validateForm f).2 = false ∧ handleSubmit f = None).
Proof.
  rewrite errors_activities.
  destruct (activities f) as [|a l] eqn:Hacts; cbn [length Nat.eqb].
  - split_and!; [done|split; [discriminate|done]|].
    intros _. apply (error_rejects f "activities").
    rewrite errors_activities, Hacts. by eexists.
  - split_and!; [split; discriminate|done|discriminate].
Qed.

(** C9: starting from the initial form, whose activities list is empty, the
    activities list holds no duplicate after any finite sequence of
    [handleActivityChange] updates. *)
Theorem C9_activities_never_duplicated (clicks : list string) :
  NoDup (activities (after_clicks clicks)).
Proof.
  unfold after_clicks.
  assert (NoDup (activities initialFormData)) as Hinit by apply NoDup_nil_2.
  revert Hinit. generalize initialFormData as st.
  induction clicks as [|a clicks IH]; intros st Hst; [done|].
  cbn [foldl]. apply IH. cbn [handleActivityChange activities].
  by apply toggle_NoDup.
Qed.

(** C10: when [a] is not in the activities list, two [handleActivityChange]
    updates for [a] in succession give back the very same form state: the
    first appends [a] at the end and the second filters it out. *)
Theorem C10_toggle_twice_restores (a : string) (prev : TravelFormData) :
  a ∉ activities prev →
  activities (handleActivityChange a prev) = activities prev ++ [a] ∧
  handleActivityChange a (handleActivityChange a prev) = prev.
Proof.
  intros Hnin. split.
  - cbn [handleActivityChange activities]. unfold toggle.
    by rewrite bool_decide_eq_false_2.
  - destruct prev. unfold handleActivityChange. cbn in *.
    by rewrite toggle_toggle_absent.
Qed.

Lemma C10_toggle_twice_restores_witness :
  ("food" ∉ ["culture"; "nature"]) ∧
  (handleActivityChange "food"
     (handleActivityChange "food"
        (handleActivityChange "nature"
           (handleActivityChange "culture" initialFormData)))
   = handleActivityChange "nature"
       (handleActivityChange "culture" initialFormData)).
Proof.
  split; [compute_done|].
  apply (C10_toggle_twice_restores "food"
           (handleActivityChange "nature"
              (handleActivityChange "culture" initialFormData))).
  compute_done.
Defined.

End FrontendFacts.

(** ** Facts about the recommendation core *)

Module CoreFacts.
Import Core.

(** *** Budget allocator *)

Lemma request_split_fails (service : nat → ServiceReply) (attempt retries : nat) :
  (∃ (k : nat) (body : list (string * Z)),
      k ≤ retries ∧ (∀ j, j < k → service (attempt + j) = Unreachable) ∧
      service (attempt + k) = Replied body ∧ validate_reply body = None)
  ∨ (∀ j, j ≤ retries → service (attempt + j) = Unreachable) →
  ∃ e : AllocatorError, request_split service attempt retries = inl e.
Proof.
  revert attempt. induction retries as [|r IH]; intros attempt H.
  - cbn [request_split]. destruct H as [(k & body & Hk & _ & Hrep & Hval)|Hall].
    + assert (k = 0) as -> by lia. rewrite Nat.add_0_r in Hrep.
      rewrite Hrep, Hval. by eexists.
    + specialize (Hall 0 (le_n 0)). rewrite Nat.add_0_r in Hall.
      rewrite Hall. by eexists.
  - cbn [request_split]. destruct H as [(k & body & Hk & Hpre & Hrep & Hval)|Hall].
    + destruct k as [|k].
      * rewrite Nat.add_0_r in Hrep. rewrite Hrep, Hval. by eexists.
      * pose proof (Hpre 0 ltac:(lia)) as H0. rewrite Nat.add_0_r in H0.
        rewrite H0. apply IH. left. exists k, body. split_and!; [lia| | |done].
        -- intros j Hj. replace (S attempt + j) with (attempt + S j) by lia.
           apply Hpre. lia.
        -- by replace (S attempt + k) with (attempt + S k) by lia.
    + pose proof (Hall 0 ltac:(lia)) as H0. rewrite Nat.add_0_r in H0.
      rewrite H0. apply IH. right. intros j Hj.
      replace (S attempt + j) with (attempt + S j) by lia. apply Hall. lia.
Qed.

Lemma fallback_path_allocate (designated : Category)
    (service : nat → ServiceReply) (req : TripRequest) :
  fallback_path service →
  allocate designated service req =
    {| percentage := default_allocation_policy;
       amount := amounts designated (tr_budget req) default_allocation_policy;
       fallback_used := true |}.
Proof.
  intros Hpath. unfold allocate.
  destruct (request_split_fails service 0 max_retries) as [e ->]; [|done].
  destruct Hpath as [(k & body & ? & ? & ? & ?)|Hall]; [left|right]; eauto 10.
Qed.

Lemma request_split_failed (service : nat → ServiceReply) (attempt retries : nat)
    (e : AllocatorError) :
  request_split service attempt retries = inl e →
  (∃ (k : nat) (body : list (string * Z)),
      k ≤ retries ∧ (∀ j, j < k → service (attempt + j) = Unreachable) ∧
      service (attempt + k) = Replied body ∧ validate_reply body = None)
  ∨ (∀ j, j ≤ retries → service (attempt + j) = Unreachable).
Proof.
  revert attempt. induction retries as [|r IH]; intros attempt;
    cbn [request_split]; destruct (service attempt) as [|body] eqn:Hs.
  - intros _. right. intros j Hj. assert (j = 0) as -> by lia.
    by rewrite Nat.add_0_r.
  - destruct (validate_reply body) eqn:Hv; [done|]. intros _. left.
    exists 0, body. rewrite Nat.add_0_r. split_and!; [lia| |done..].
    intros j Hj. lia.
  - intros [(k & body & Hk & Hpre & Hrep & Hval)|Hall]%IH.
    + left. exists (S k), body. split_and!; [lia| | |done].
      * intros [|j] Hj; [by rewrite Nat.add_0_r|].
        replace (attempt + S j) with (S attempt + j) by lia. apply Hpre. lia.
      * by replace (attempt + S k) with (S attempt + k) by lia.
    + right. intros [|j] Hj; [by rewrite Nat.add_0_r|].
      replace (attempt + S j) with (S attempt + j) by lia. apply Hall. lia.
  - destruct (validate_reply body) eqn:Hv; [done|]. intros _. left.
    exists 0, body. rewrite Nat.add_0_r. split_and!; [lia| |done..].
    intros j Hj. lia.
Qed.

(** The flag is set exactly on the fallback path. *)
Lemma fallback_used_iff (designated : Category) (service : nat → ServiceReply)
    (req : TripRequest) :
  fallback_used (allocate designated service req) = true ↔ fallback_path service.
Proof.
  split.
  - unfold allocate.
    destruct (request_split service 0 max_retries) as [e|pct] eqn:Hsplit;
      [|done].
    intros _. apply request_split_failed in Hsplit. exact Hsplit.
  - intros Hpath. by rewrite fallback_path_allocate.
Qed.

(** The amounts of an allocation add up to the budget, whatever the
    percentages and the designated category. *)
Lemma amounts_sum (designated : Category) (budget : Z) (pct : Category → Z) :
  sum_over (amounts designated budget pct) = budget.
Proof.
  unfold sum_over, amounts. unfold sum_over, all_categories. cbn [foldr].
  destruct designated; repeat case_decide; try congruence; lia.
Qed.

(** C4: on its fallback path the allocator returns the fixed split (flights
    30, accommodation 35, activities 15, food 15, transportation 5, which add
    up to 100) with the fallback-used flag set, and the amounts add up to
    the budget: the caller gets an allocation, not a failure. *)
Theorem C4_fallback_allocation (designated : Category)
    (service : nat → ServiceReply) (req : TripRequest) :
  fallback_path service →
  let a := allocate designated service req in
  percentage a Flights = 30%Z ∧ percentage a Accommodation = 35%Z ∧
  percentage a Activities = 15%Z ∧ percentage a Food = 15%Z ∧
  percentage a Transportation = 5%Z ∧
  sum_over (percentage a) = 100%Z ∧
  fallback_used a = true ∧
  sum_over (amount a) = tr_budget req.
Proof.
  intros Hpath a. subst a. rewrite fallback_path_allocate by done.
  cbn [percentage fallback_used amount]. split_and!; try reflexivity.
  apply amounts_sum.
Qed.

Lemma C4_fallback_allocation_witness :
  let a := allocate Accommodation service_down scenario_request in
  percentage a Flights = 30%Z ∧ percentage a Accommodation = 35%Z ∧
  percentage a Activities = 15%Z ∧ percentage a Food = 15%Z ∧
  percentage a Transportation = 5%Z ∧
  sum_over (percentage a) = 100%Z ∧
  fallback_used a = true ∧
  sum_over (amount a) = tr_budget scenario_request.
Proof.
  apply (C4_fallback_allocation Accommodation service_down scenario_request).
  right. intros j _. reflexivity.
Defined.

(** C8: with a budget of $3000 and five days, the fallback split gives
    activities exactly $450; the day budget is then $90 and the ceiling of a
    day, the day budget scaled by 1.2, exactly $108 (amounts in cents). *)
Theorem C8_scenario_amounts (designated : Category)
    (service : nat → ServiceReply) (req : TripRequest) :
  fallback_path service →
  tr_budget req = 300000%Z →
  duration req = 5 →
  let a := allocate designated service req in
  amount a Activities = 45000%Z ∧
  day_budget (amount a Activities) (duration req) = 9000%Z ∧
  day_ceiling (amount a Activities) (duration req) = 10800%Z.
Proof.
  intros Hpath Hbudget Hdays a. subst a.
  rewrite fallback_path_allocate by done. cbn [amount].
  rewrite Hbudget, Hdays.
  assert (amounts designated 300000 default_allocation_policy Activities
            = 45000%Z) as -> by (by destruct designated).
  done.
Qed.

Lemma C8_scenario_amounts_witness :
  let a := allocate Accommodation service_down scenario_request in
  amount a Activities = 45000%Z ∧
  day_budget (amount a Activities) (duration scenario_request) = 9000%Z ∧
  day_ceiling (amount a Activities) (duration scenario_request) = 10800%Z.
Proof.
  apply (C8_scenario_amounts Accommodation service_down scenario_request).
  - right. intros j _. reflexivity.
  - reflexivity.
  - reflexivity.
Defined.

(** *** Cost reconciliation *)

Lemma absorb_into_last_length (r : Z) (costs : list Z) :
  length (absorb_into_last r costs) = length costs.
Proof.
  induction costs as [|c [|c' cs] IH]; [done..|].
  cbn [absorb_into_last length] in *. by rewrite IH.
Qed.

Lemma absorb_into_last_sum (r : Z) (costs : list Z) :
  costs ≠ [] → sum_list (absorb_into_last r costs) = (sum_list costs + r)%Z.
Proof.
  induction costs as [|c [|c' cs] IH]; intros Hne; [done| |].
  - cbn. lia.
  - change (sum_list (c :: absorb_into_last r (c' :: cs))
            = (sum_list (c :: c' :: cs) + r)%Z).
    unfold sum_list in *. cbn [foldr] in *. rewrite IH by done. lia.
Qed.

(** Every cost but the last is left as it was. *)
Lemma absorb_into_last_lookup (r : Z) (costs : list Z) (i : nat) :
  S i < length costs → absorb_into_last r costs !! i = costs !! i.
Proof.
  revert i. induction costs as [|c [|c' cs] IH]; intros i Hi;
    [cbn in Hi; lia..|].
  change (absorb_into_last r (c :: c' :: cs))
    with (c :: absorb_into_last r (c' :: cs)).
  destruct i as [|i]; [done|]. cbn [lookup list_lookup].
  apply IH. cbn [length] in *. lia.
Qed.

(** The last cost takes the whole remainder. *)
Lemma absorb_into_last_final (r : Z) (costs : list Z) (c : Z) :
  costs !! (length costs - 1) = Some c →
  absorb_into_last r costs !! (length costs - 1) = Some (c + r)%Z.
Proof.
  induction costs as [|c0 [|c' cs] IH]; intros Hc; [done| |].
  - cbn in *. by simplify_eq.
  - change (absorb_into_last r (c0 :: c' :: cs))
      with (c0 :: absorb_into_last r (c' :: cs)).
    replace (length (c0 :: c' :: cs) - 1) with (S (length (c' :: cs) - 1)) in *
      by (cbn [length]; lia).
    cbn [lookup list_lookup] in *. by apply IH.
Qed.

Lemma plan_days_length (n D : nat) (ceiling : Z) (acts : list RankedCandidate)
    (queue used : list string) :
  length (plan_days n D ceiling acts queue used) = n.
Proof.
  revert queue used. induction n as [|n IH]; intros queue used; [done|].
  cbn [plan_days length]. by rewrite IH.
Qed.

Lemma fmap_imap_const {A B C : Type} (f : nat → A → B) (g : B → C) (h : A → C)
    (l : list A) :
  (∀ i x, g (f i x) = h x) → g <$> imap f l = h <$> l.
Proof.
  revert f. induction l as [|x l IH]; intros f Hf; [done|].
  cbn [imap fmap list_fmap]. rewrite Hf. f_equal. apply IH.
  intros i y. apply Hf.
Qed.

Section synthesis.
Context (estimate_total : TripRequest → BudgetAllocation → Stay
                          → list (list ScheduledActivity) → Z).
Context (narrate : nat → list ScheduledActivity → option Weather
                   → option (string * string)).
Context (req : TripRequest) (alloc : BudgetAllocation) (cands : Candidates)
  (ctx : ContextInfo).

Let D := duration req.
Let drafts :=
  plan_days D D (day_ceiling (amount alloc Activities) D) (c_activities cands)
    (tr_activities req) [].
Let it := synthesize estimate_total narrate req alloc cands ctx.
Let costs :=
  reconcile (cb_total (it_total_estimated_cost it))
    (cb_accommodation (it_total_estimated_cost it))
    (cb_flights (it_total_estimated_cost it)) (day_cost <$> drafts).

Lemma costs_length : length costs = length drafts.
Proof.
  unfold costs, reconcile. by rewrite absorb_into_last_length, length_fmap.
Qed.

Lemma synthesize_costs : dp_estimated_cost <$> it_days it = costs.
Proof.
  unfold it, synthesize. cbn [it_days].
  rewrite (fmap_imap_const _ _ snd) by (by intros i [acts cost]).
  apply snd_zip. change (length costs ≤ length drafts).
  by rewrite costs_length.
Qed.

Lemma synthesize_activities : dp_activities <$> it_days it = drafts.
Proof.
  unfold it, synthesize. cbn [it_days].
  rewrite (fmap_imap_const _ _ fst) by (by intros i [acts cost]).
  apply fst_zip. change (length drafts ≤ length costs).
  by rewrite costs_length.
Qed.

Lemma synthesize_days_length : length (it_days it) = D.
Proof.
  rewrite <- (length_fmap dp_activities), synthesize_activities.
  apply plan_days_length.
Qed.

Lemma synthesize_day (i : nat) (d : DayPlan) :
  it_days it !! i = Some d →
  drafts !! i = Some (dp_activities d) ∧
  costs !! i = Some (dp_estimated_cost d).
Proof.
  intros Hd. split.
  - rewrite <- synthesize_activities, list_lookup_fmap, Hd. done.
  - rewrite <- synthesize_costs, list_lookup_fmap, Hd. done.
Qed.

Lemma synthesize_reconciled :
  valid_request req →
  cb_total (it_total_estimated_cost it) =
    (sum_list (dp_estimated_cost <$> it_days it)
     + cb_accommodation (it_total_estimated_cost it)
     + cb_flights (it_total_estimated_cost it))%Z.
Proof.
  intros (Hdates & _). rewrite synthesize_costs. unfold costs, reconcile.
  rewrite absorb_into_last_sum; [lia|].
  intros Hnil. apply (f_equal length) in Hnil.
  rewrite length_fmap in Hnil. unfold drafts in Hnil.
  rewrite plan_days_length in Hnil. unfold D, duration in Hnil.
  cbn [length] in Hnil. lia.
Qed.

Lemma synthesize_other_days (i : nat) (d : DayPlan) :
  S i < D → it_days it !! i = Some d →
  dp_estimated_cost d = day_cost (dp_activities d).
Proof.
  intros Hi [Hacts Hcost]%synthesize_day.
  unfold costs, reconcile in Hcost.
  rewrite absorb_into_last_lookup in Hcost
    by (unfold drafts; by rewrite length_fmap, plan_days_length).
  rewrite list_lookup_fmap, Hacts in Hcost. by injection Hcost.
Qed.

Lemma synthesize_final_day (d : DayPlan) :
  it_days it !! (D - 1) = Some d →
  dp_estimated_cost d =
    (day_cost (dp_activities d)
     + (cb_total (it_total_estimated_cost it)
        - (sum_list (day_cost <$> drafts)
           + cb_accommodation (it_total_estimated_cost it)
           + cb_flights (it_total_estimated_cost it))))%Z.
Proof.
  intros [Hacts Hcost]%synthesize_day.
  unfold costs, reconcile in Hcost.
  assert (length (day_cost <$> drafts) = D) as Hlen
    by (unfold drafts; by rewrite length_fmap, plan_days_length).
  match type of Hcost with
  | absorb_into_last ?r _ !! _ = _ =>
      pose proof (absorb_into_last_final r (day_cost <$> drafts)
                    (day_cost (dp_activities d))) as Hfin
  end.
  rewrite Hlen in Hfin. rewrite Hfin in Hcost.
  - by injection Hcost.
  - by rewrite list_lookup_fmap, Hacts.
Qed.

End synthesis.

(** *** Diversity *)

Lemma pool_of_category (category : string) (acts : list RankedCandidate)
    (c : RankedCandidate) :
  c ∈ pool_of category acts → candidate_category c = category.
Proof. unfold pool_of. by intros [? _]%list_elem_of_filter. Qed.

(** A pick is either unused so far, or flagged as a repetition and taken from
    a pool smaller than D. *)
Lemma pick_for_day_spec (D : nat) (ceiling : Z) (acts : list RankedCandidate)
    (used queue : list string) (c : RankedCandidate) (repeated : bool) :
  pick_for_day D ceiling acts used queue = Some (c, repeated) →
  (repeated = false ∧ candidate_id c ∉ used)
  ∨ (repeated = true ∧ length (pool_of (candidate_category c) acts) < D).
Proof.
  induction queue as [|category rest IH]; [done|]. cbn [pick_for_day].
  destruct (list_find _ (pool_of category acts)) as [[i x]|] eqn:Hfresh.
  - intros [= <- <-]. left. apply list_find_Some in Hfresh as (_ & [? _] & _).
    done.
  - case_decide as Hsmall; [|done].
    destruct (list_find (fits ceiling 0) (pool_of category acts))
      as [[i x]|] eqn:Hagain; [|done].
    intros [= <- <-]. right. split; [done|].
    apply list_find_Some in Hagain as (Hx & _ & _).
    apply list_elem_of_lookup_2, pool_of_category in Hx. by rewrite Hx.
Qed.

(** The invariant of the walk over the days: an entry is flagged and from a
    small pool, or its id is neither used before the walk nor scheduled
    earlier in it. *)
Lemma plan_days_diverse (n D : nat) (ceiling : Z) (acts : list RankedCandidate)
    (queue used : list string) (j : nat) (b : ScheduledActivity)
    (id category : string) :
  mjoin (plan_days n D ceiling acts queue used) !! j = Some b →
  scheduled_id b = Some id → scheduled_category b = Some category →
  (sa_repeated b = true ∧ length (pool_of category acts) < D)
  ∨ ((id ∉ used) ∧
     ∀ i a, i < j →
       mjoin (plan_days n D ceiling acts queue used) !! i = Some a →
       scheduled_id a ≠ Some id).
Proof.
  revert queue used j.
  induction n as [|n IH]; intros queue used j Hb Hid Hcat; [done|].
  cbn [plan_days mjoin list_join app] in *.
  set (p := pick_for_day D ceiling acts used queue) in *.
  destruct j as [|j].
  - cbn [lookup list_lookup] in Hb. injection Hb as <-.
    destruct p as [[c repeated]|] eqn:Hp; [|done].
    cbn in Hid, Hcat. simplify_eq.
    apply pick_for_day_spec in Hp as [[-> Hfresh]|[-> Hsmall]].
    + right. split; [done|]. intros i a Hi. lia.
    + left. done.
  - cbn [lookup list_lookup] in Hb.
    destruct (IH _ _ _ Hb Hid Hcat) as [Hflag|[Hfresh Hearlier]]; [by left|].
    right. split.
    + intros Hin. apply Hfresh. destruct p as [[c repeated]|]; cbn [mark_used];
        [by right|done].
    + intros [|i] a Hi Ha.
      * cbn [lookup list_lookup] in Ha. injection Ha as <-.
        destruct p as [[c repeated]|]; [|done]. cbn. intros [= Hc].
        apply Hfresh. cbn [mark_used]. rewrite Hc. by left.
      * cbn [lookup list_lookup] in Ha. apply (Hearlier i a); [lia|done].
Qed.

(** *** Ranking *)

Lemma rank_compare_key (a b : RankedCandidate) :
  rank_compare a b = key_compare (sort_key a) (sort_key b).
Proof.
  unfold rank_compare, key_compare, sort_key, Orders.lex. cbn [fst snd].
  by rewrite Z.compare_opp.
Qed.

Lemma key_order_cmp : Orders.order_cmp key_compare.
Proof.
  apply OrdersFacts.lex_order_cmp; [apply OrdersFacts.Z_order_cmp|].
  apply OrdersFacts.lex_order_cmp;
    [apply OrdersFacts.Z_order_cmp|apply OrdersFacts.string_order_cmp].
Qed.

#[global] Instance rank_le_transitive : Transitive rank_le.
Proof.
  intros a b c. unfold rank_le. rewrite !rank_compare_key.
  apply OrdersFacts.cmp_le_trans, key_order_cmp.
Qed.

#[global] Instance rank_le_total : Total rank_le.
Proof.
  intros a b. unfold rank_le. rewrite !rank_compare_key.
  apply OrdersFacts.cmp_le_total, key_order_cmp.
Qed.

Lemma rank_le_antisym (a b : RankedCandidate) :
  rank_le a b → rank_le b a → rank_key a = rank_key b.
Proof.
  unfold rank_le. rewrite !rank_compare_key. intros Hab Hba.
  pose proof (OrdersFacts.cmp_le_antisym _ _ _ key_order_cmp Hab Hba) as Hkey.
  unfold sort_key in Hkey. injection Hkey as Hs Hc Ht.
  unfold rank_key. f_equal; [f_equal|]; [lia|done..].
Qed.

(** What [rank_le] says, in the words of the design document. *)
Lemma rank_le_spelled_out (a b : RankedCandidate) :
  rank_le a b ↔
    (rc_score b < rc_score a)%Z
    ∨ (rc_score a = rc_score b ∧
       ((ce_cost (rc_entry a) < ce_cost (rc_entry b))%Z
        ∨ (ce_cost (rc_entry a) = ce_cost (rc_entry b) ∧
           String.leb (ce_title (rc_entry a)) (ce_title (rc_entry b)) = true))).
Proof.
  unfold rank_le, rank_compare, String.leb.
  destruct (Z.compare_spec (rc_score b) (rc_score a)) as [Hs|Hs|Hs].
  - destruct (Z.compare_spec (ce_cost (rc_entry a)) (ce_cost (rc_entry b)))
      as [Hc|Hc|Hc].
    + destruct (String.compare _ _); split; try done; try (intros _; right; auto).
      * intros [?|[_ [?|[_ ?]]]]; (lia || done).
    + split; [intros _; right; split; [done|by left]|done].
    + split; [done|]. intros [?|[_ [?|[? _]]]]; lia.
  - split; [intros _; by left|done].
  - split; [done|]. intros [?|[? _]]; lia.
Qed.

Lemma rank_sorted (score : CatalogEntry → Z) (category : string)
    (pool : list CatalogEntry) :
  StronglySorted rank_le (rank score category pool).
Proof. unfold rank. apply (StronglySorted_merge_sort rank_le). Qed.

Lemma rank_permutation (score : CatalogEntry → Z) (category : string)
    (pool : list CatalogEntry) :
  rank score category pool
  ≡ₚ scored score <$> filter (λ e, ce_category e = category) pool.
Proof. unfold rank. apply merge_sort_Permutation. Qed.

Lemma elem_of_rank (score : CatalogEntry → Z) (category : string)
    (pool : list CatalogEntry) (a : RankedCandidate) :
  a ∈ rank score category pool →
  ∃ e, a = scored score e ∧ e ∈ pool ∧ ce_category e = category.
Proof.
  rewrite rank_permutation. intros (e & -> & He)%list_elem_of_fmap.
  apply list_elem_of_filter in He as [Hc He]. by exists e.
Qed.

(** The ranking does not depend on the order in which the pool lists its
    entries. *)
Lemma rank_order_independent (score : CatalogEntry → Z) (category : string)
    (pool1 pool2 : list CatalogEntry) :
  pool1 ≡ₚ pool2 → ties_broken score pool1 →
  rank score category pool1 = rank score category pool2.
Proof.
  intros Hperm Hties.
  apply (StronglySorted_unique_strong rank_le); [|apply rank_sorted..|].
  - intros a b (e1 & -> & He1 & _)%elem_of_rank (e2 & -> & He2 & _)%elem_of_rank.
    intros Hab Hba. rewrite <- Hperm in He2.
    pose proof (rank_le_antisym _ _ Hab Hba) as Hkey.
    unfold rank_key in Hkey. cbn in Hkey. injection Hkey as Hs Hc Ht.
    by rewrite (Hties e1 e2).
  - rewrite !rank_permutation. by rewrite Hperm.
Qed.

(** *** Determinism of the synthesizer *)

Lemma imap_pointwise {A B : Type} (f g : nat → A → B) (l : list A) :
  (∀ i x, f i x = g i x) → imap f l = imap g l.
Proof.
  revert f g. induction l as [|x l IH]; intros f g Hfg; [done|].
  cbn [imap]. rewrite Hfg. f_equal. apply IH. intros i y. apply Hfg.
Qed.

(** The itinerary depends on the allocation only through its amounts and
    its flag, and on the stubs only through their answers. *)
Lemma synthesize_extensional
    (estimate1 estimate2 : TripRequest → BudgetAllocation → Stay
                           → list (list ScheduledActivity) → Z)
    (narrate1 narrate2 : nat → list ScheduledActivity → option Weather
                         → option (string * string))
    (req : TripRequest) (alloc1 alloc2 : BudgetAllocation) (cands : Candidates)
    (ctx : ContextInfo) :
  (∀ c, amount alloc1 c = amount alloc2 c) →
  fallback_used alloc1 = fallback_used alloc2 →
  (∀ stay drafts, estimate1 req alloc1 stay drafts = estimate2 req alloc2 stay drafts) →
  (∀ n acts w, narrate1 n acts w = narrate2 n acts w) →
  synthesize estimate1 narrate1 req alloc1 cands ctx
  = synthesize estimate2 narrate2 req alloc2 cands ctx.
Proof.
  intros Hamount Hflag Hest Hnar. unfold synthesize.
  rewrite !Hamount, Hflag, Hest. f_equal.
  apply imap_pointwise. intros i [acts cost]. unfold narrative.
  by rewrite Hnar.
Qed.

(** *** Properties of the synthesizer *)

(** C5: for a valid request the grand total of the itinerary is exactly the
    sum of the day costs plus the accommodation total plus the flight
    allocation; every day but the last costs what its activities cost, and
    the last day takes the whole remainder. *)
Theorem C5_grand_total_exact
    (estimate_total : TripRequest → BudgetAllocation → Stay
                      → list (list ScheduledActivity) → Z)
    (narrate : nat → list ScheduledActivity → option Weather
               → option (string * string))
    (req : TripRequest) (alloc : BudgetAllocation) (cands : Candidates)
    (ctx : ContextInfo) :
  valid_request req →
  let it := synthesize estimate_total narrate req alloc cands ctx in
  let cost := it_total_estimated_cost it in
  let remainder :=
    (cb_total cost
     - (sum_list (day_cost <$> (dp_activities <$> it_days it))
        + cb_accommodation cost + cb_flights cost))%Z in
  cb_total cost =
    (sum_list (dp_estimated_cost <$> it_days it)
     + cb_accommodation cost + cb_flights cost)%Z ∧
  cb_flights cost = amount alloc Flights ∧
  length (it_days it) = duration req ∧
  (∀ i d, S i < duration req → it_days it !! i = Some d →
     dp_estimated_cost d = day_cost (dp_activities d)) ∧
  (∀ d, it_days it !! (duration req - 1) = Some d →
     dp_estimated_cost d = (day_cost (dp_activities d) + remainder)%Z).
Proof.
  intros Hvalid it cost remainder. split_and!.
  - by apply synthesize_reconciled.
  - done.
  - apply synthesize_days_length.
  - apply synthesize_other_days.
  - intros d Hd. subst remainder it.
    rewrite synthesize_activities. by apply synthesize_final_day.
Qed.

Lemma C5_grand_total_exact_witness :
  cb_total (it_total_estimated_cost scenario_itinerary) =
    (sum_list (dp_estimated_cost <$> it_days scenario_itinerary)
     + cb_accommodation (it_total_estimated_cost scenario_itinerary)
     + cb_flights (it_total_estimated_cost scenario_itinerary))%Z.
Proof.
  apply (C5_grand_total_exact itemised_total no_narration scenario_request
           scenario_allocation scenario_candidates scenario_context).
  unfold valid_request. cbn. split_and!; [lia..|discriminate].
Defined.

Lemma retrieve_category_order_independent
    (scoring : TripRequest → string → option (CatalogEntry → Z))
    (same_place : string → string → bool) (req : TripRequest)
    (allocated sharers : Z) (category : string)
    (catalog1 catalog2 : list CatalogEntry) :
  catalog1 ≡ₚ catalog2 →
  (∀ score, scoring req category = Some score → ties_broken score catalog1) →
  retrieve_category scoring same_place req allocated sharers category catalog1
  = retrieve_category scoring same_place req allocated sharers category catalog2.
Proof.
  intros Hperm Hties. unfold retrieve_category.
  destruct (scoring req category) as [score|]; [|done].
  by rewrite (rank_order_independent score category catalog1 catalog2)
    by auto.
Qed.

(** What the Retrieval Agent returns does not depend on the order in which
    the catalog lists its entries. *)
Lemma retrieve_order_independent
    (scoring : TripRequest → string → option (CatalogEntry → Z))
    (same_place : string → string → bool) (per_traveler : Category → bool)
    (catalog1 catalog2 : list CatalogEntry) (req : TripRequest)
    (alloc : BudgetAllocation) :
  catalog1 ≡ₚ catalog2 →
  (∀ category score, scoring req category = Some score →
     ties_broken score catalog1) →
  retrieve scoring same_place per_traveler catalog1 req alloc
  = retrieve scoring same_place per_traveler catalog2 req alloc.
Proof.
  intros Hperm Hties. unfold retrieve.
  rewrite !(retrieve_category_order_independent scoring same_place req _ _ _
              catalog1 catalog2) by eauto.
  assert ((λ category,
             (category,
              retrieve_category scoring same_place req (amount alloc Activities)
                (if per_traveler Activities then tr_travelers req else 1%Z)
                category catalog1)) <$> tr_activities req
          = (λ category,
               (category,
                retrieve_category scoring same_place req (amount alloc Activities)
                  (if per_traveler Activities then tr_travelers req else 1%Z)
                  category catalog2)) <$> tr_activities req) as ->; [|done].
  apply list_fmap_ext. intros _ category _. f_equal.
  apply retrieve_category_order_independent; eauto.
Qed.

(** C6: the core is deterministic.  Two runs of [synthesize(tripRequest)] on
    the same request and catalog whose stubbed services give the same
    answers return the same itinerary.  Every ranking is sorted by
    descending score, ties broken by ascending cost and then by title; so,
    when no two catalog entries tie on all three, the rankings and with them
    the itinerary are the same whatever the order in which the catalog lists
    its entries. *)
Theorem C6_deterministic_synthesis
    (designated : Category) (service : nat → ServiceReply)
    (scoring : TripRequest → string → option (CatalogEntry → Z))
    (same_place : string → string → bool) (per_traveler : Category → bool)
    (context_agent : TripRequest → ContextInfo)
    (estimate1 estimate2 : TripRequest → BudgetAllocation → Stay
                           → list (list ScheduledActivity) → Z)
    (narrate1 narrate2 : nat → list ScheduledActivity → option Weather
                         → option (string * string))
    (catalog1 : list CatalogEntry) (req : TripRequest) :
  (∀ alloc stay drafts,
     estimate1 req alloc stay drafts = estimate2 req alloc stay drafts) →
  (∀ n acts w, narrate1 n acts w = narrate2 n acts w) →
  core_synthesize designated service scoring same_place per_traveler
    context_agent estimate1 narrate1 catalog1 req
  = core_synthesize designated service scoring same_place per_traveler
      context_agent estimate2 narrate2 catalog1 req ∧
  (∀ category score,
     StronglySorted
       (λ a b,
          (rc_score b < rc_score a)%Z
          ∨ (rc_score a = rc_score b ∧
             ((ce_cost (rc_entry a) < ce_cost (rc_entry b))%Z
              ∨ (ce_cost (rc_entry a) = ce_cost (rc_entry b) ∧
                 String.leb (ce_title (rc_entry a)) (ce_title (rc_entry b))
                 = true))))
       (rank score category catalog1) ∧
     rank score category catalog1
       ≡ₚ scored score <$> filter (λ e, ce_category e = category) catalog1) ∧
  (∀ catalog2,
     catalog1 ≡ₚ catalog2 →
     (∀ category score, scoring req category = Some score →
        ties_broken score catalog1) →
     (∀ category score, scoring req category = Some score →
        rank score category catalog1 = rank score category catalog2) ∧
     core_synthesize designated service scoring same_place per_traveler
       context_agent estimate1 narrate1 catalog1 req
     = core_synthesize designated service scoring same_place per_traveler
         context_agent estimate2 narrate2 catalog2 req).
Proof.
  intros Hest Hnar. split_and!.
  - unfold core_synthesize. case_decide; [|done]. f_equal.
    by apply synthesize_extensional.
  - intros category score. split.
    + pose proof (rank_sorted score category catalog1) as Hsorted.
      induction Hsorted as [|a l Hl IH Hall]; constructor; [done|].
      eapply Forall_impl; [exact Hall|]. intros b. apply rank_le_spelled_out.
    + apply rank_permutation.
  - intros catalog2 Hperm Hties. split.
    + intros category score Hscore. apply rank_order_independent; eauto.
    + unfold core_synthesize. case_decide; [|done]. f_equal.
      rewrite (retrieve_order_independent scoring same_place per_traveler
                 catalog1 catalog2) by done.
      by apply synthesize_extensional.
Qed.

Lemma C6_deterministic_synthesis_witness :
  scenario_run scenario_catalog = scenario_run (reverse scenario_catalog).
Proof.
  apply (proj2 (proj2 (C6_deterministic_synthesis Accommodation service_down
           scenario_scoring String.eqb
           (λ spending, bool_decide (spending = Flights))
           (λ _, scenario_context) itemised_total itemised_total
           no_narration no_narration scenario_catalog scenario_request
           (λ _ _ _, eq_refl) (λ _ _ _, eq_refl)))
         (reverse scenario_catalog)).
  - symmetry. apply reverse_Permutation.
  - intros category score [= <-] e1 e2 H1 H2 _ _ Htitle.
    unfold scenario_catalog in H1, H2.
    repeat (apply elem_of_cons in H1 as [->|H1]);
      try (by apply elem_of_nil in H1);
      repeat (apply elem_of_cons in H2 as [->|H2]);
      try (by apply elem_of_nil in H2);
      (reflexivity || discriminate Htitle).
Defined.

(** The condition on ties is needed: two entries that differ in their id
    only tie on score, cost and title, and the itinerary then follows the
    order in which the catalog lists them. *)
Lemma complete_tie_follows_catalog_order :
  twin_catalog ≡ₚ reverse twin_catalog ∧
  scenario_run twin_catalog ≠ scenario_run (reverse twin_catalog).
Proof.
  split; [symmetry; apply reverse_Permutation|].
  intros H. vm_compute in H. discriminate H.
Qed.

(** C7: in the itinerary no catalog id is scheduled twice, unless the pool
    of the entry's category is smaller than the trip duration, and then the
    later occurrence carries the repetition flag. *)
Theorem C7_repetition_only_flagged
    (estimate_total : TripRequest → BudgetAllocation → Stay
                      → list (list ScheduledActivity) → Z)
    (narrate : nat → list ScheduledActivity → option Weather
               → option (string * string))
    (req : TripRequest) (alloc : BudgetAllocation) (cands : Candidates)
    (ctx : ContextInfo) (i j : nat) (a b : ScheduledActivity)
    (ca cb : RankedCandidate) :
  let it := synthesize estimate_total narrate req alloc cands ctx in
  i < j →
  scheduled it !! i = Some a → scheduled it !! j = Some b →
  sa_pick a = Candidate ca → sa_pick b = Candidate cb →
  ce_id (rc_entry ca) = ce_id (rc_entry cb) →
  length (pool_of (ce_category (rc_entry cb)) (c_activities cands))
    < duration req ∧
  sa_repeated b = true.
Proof.
  intros it Hij Ha Hb Hca Hcb Hid. unfold scheduled in Ha, Hb. subst it.
  rewrite synthesize_activities in Ha, Hb.
  destruct (plan_days_diverse _ _ _ _ _ _ _ _ (candidate_id cb)
              (candidate_category cb) Hb) as [[Hflag Hsmall]|[_ Hearlier]].
  - unfold scheduled_id. by rewrite Hcb.
  - unfold scheduled_category. by rewrite Hcb.
  - done.
  - exfalso. apply (Hearlier i a Hij Ha).
    unfold scheduled_id, candidate_id. by rewrite Hca, Hid.
Qed.

Lemma C7_repetition_only_flagged_witness :
  length (pool_of "culture" (c_activities scenario_candidates))
    < duration scenario_request ∧
  sa_repeated
    (schedule (Some (scored scenario_score
                       (lisbon "a2" "culture" "Tile museum" 2000), true)))
  = true.
Proof.
  apply (C7_repetition_only_flagged itemised_total no_narration
           scenario_request scenario_allocation scenario_candidates
           scenario_context 1 3
           (schedule (Some (scored scenario_score
                              (lisbon "a2" "culture" "Tile museum" 2000), false)))
           (schedule (Some (scored scenario_score
                              (lisbon "a2" "culture" "Tile museum" 2000), true)))
           (scored scenario_score (lisbon "a2" "culture" "Tile museum" 2000))
           (scored scenario_score (lisbon "a2" "culture" "Tile museum" 2000)));
    [lia|vm_compute; reflexivity..].
Defined.

End CoreFacts.

(** ** Facts about the planning modal *)

Module ModalFacts.
Import Frontend Modal.

(** *** Selecting activities *)

Lemma elem_of_toggle (a b : string) (l : list string) :
  b ∈ toggle a l ↔ (b = a ∧ a ∉ l) ∨ (b ≠ a ∧ b ∈ l).
Proof.
  unfold toggle. case_bool_decide as Hin.
  - rewrite list_elem_of_filter. destruct (decide (b = a)) as [->|Hne].
    + split; [by intros [? _]|]. intros [[_ ?]|[? _]]; done.
    + split; [intros [_ ?]; by right|]. intros [[? _]|[_ ?]]; done.
  - rewrite elem_of_app, list_elem_of_singleton.
    destruct (decide (b = a)) as [->|Hne].
    + split; [intros _; by left|]. intros _. by right.
    + split; [intros [?|?]; [by right|done]|]. intros [[? _]|[_ ?]];
        [done|by left].
Qed.

Lemma checked_toggle (a b : string) (prev : TravelFormData) :
  checked b (handleActivityChange a prev) =
    if decide (b = a) then negb (checked a prev) else checked b prev.
Proof.
  unfold checked. cbn [handleActivityChange activities].
  pose proof (elem_of_toggle a b (activities prev)) as Ht.
  case_decide as Hab; [subst b|]; repeat case_bool_decide; try done;
    exfalso; tauto.
Qed.

Lemma checked_after (a : string) (st : TravelFormData) (clicks : list string) :
  checked a (foldl (λ st c, handleActivityChange c st) st clicks) =
    xorb (checked a st) (Nat.odd (length (filter (λ c, c = a) clicks))).
Proof.
  revert st. induction clicks as [|c clicks IH]; intros st.
  - cbn. by destruct (checked a st).
  - cbn [foldl]. rewrite IH, checked_toggle.
    destruct (decide (c = a)) as [->|Hne].
    + rewrite decide_True by done. rewrite filter_cons_True by done.
      cbn [length]. rewrite Nat.odd_succ, <- Nat.negb_odd.
      by destruct (checked a st), (Nat.odd _).
    + rewrite decide_False by done. by rewrite filter_cons_False by done.
Qed.

Lemma foldl_toggle_NoDup (st : TravelFormData) (clicks : list string) :
  NoDup (activities st) →
  NoDup (activities (foldl (λ st c, handleActivityChange c st) st clicks)).
Proof.
  revert st. induction clicks as [|c clicks IH]; intros st Hst; [done|].
  cbn [foldl]. apply IH. cbn [handleActivityChange activities].
  unfold toggle. case_bool_decide.
  - by apply NoDup_filter.
  - apply NoDup_app. split_and!; [done| |apply NoDup_singleton].
    intros x Hx ->%list_elem_of_singleton. done.
Qed.

Lemma foldl_toggle_subseteq (options : list string) (st : TravelFormData)
    (clicks : list string) :
  activities st ⊆ options → Forall (λ c, c ∈ options) clicks →
  activities (foldl (λ st c, handleActivityChange c st) st clicks) ⊆ options.
Proof.
  revert st. induction clicks as [|c clicks IH]; intros st Hst Hclicks; [done|].
  apply Forall_cons in Hclicks as [Hc Hclicks].
  cbn [foldl]. apply IH; [|done]. cbn [handleActivityChange activities].
  intros x [[-> _]|[_ Hx]]%elem_of_toggle; [done|by apply Hst].
Qed.

Lemma toggle_nil_iff (a : string) (l : list string) :
  toggle a l = [] ↔ l ≠ [] ∧ ∀ x, x ∈ l → x = a.
Proof.
  unfold toggle. case_bool_decide as Hin.
  - split.
    + intros Hnil. split; [by intros ->; apply elem_of_nil in Hin|].
      intros x Hx. destruct (decide (x = a)) as [|Hne]; [done|].
      assert (x ∈ filter (λ y, y ≠ a) l) as Hf by (by apply list_elem_of_filter).
      rewrite Hnil in Hf. by apply elem_of_nil in Hf.
    + intros [_ Hall]. induction l as [|y l IH]; [done|].
      rewrite filter_cons_False by (intros Hy; apply Hy, Hall; by left).
      destruct l as [|z l]; [done|]. apply IH.
      * assert (z = a) as -> by (apply Hall; right; by left). by left.
      * intros x Hx. apply Hall. by right.
  - split; [intros [_ ?]%app_eq_nil; done|].
    intros [Hne Hall]. destruct l as [|y l]; [done|]. exfalso. apply Hin.
    rewrite (Hall y) by (by left). by left.
Qed.

(** X1: a click on the checkbox of [a] flips whether [a] is checked and
    leaves every other checkbox as it was. *)
Theorem checkbox_click_flips (a b : string) (prev : TravelFormData) :
  checked a (handleActivityChange a prev) = negb (checked a prev) ∧
  (b ≠ a → checked b (handleActivityChange a prev) = checked b prev).
Proof.
  rewrite !checked_toggle. rewrite decide_True by done. split; [done|].
  intros Hne. by rewrite decide_False.
Qed.

(** X2: after any sequence of clicks on the initial form, an activity is
    selected exactly when it was clicked an odd number of times. *)
Theorem selected_iff_odd_clicks (a : string) (clicks : list string) :
  a ∈ activities (after_clicks clicks)
  ↔ Nat.Odd (length (filter (λ c, c = a) clicks)).
Proof.
  rewrite <- Nat.odd_spec. unfold after_clicks.
  pose proof (checked_after a initialFormData clicks) as Hc.
  unfold checked at 1 2 in Hc. cbn [initialFormData activities] in Hc.
  rewrite (bool_decide_eq_false_2 (a ∈ [])) in Hc by apply not_elem_of_nil.
  cbn [xorb] in Hc. rewrite <- Hc. by rewrite bool_decide_eq_true.
Qed.

(** X3: two clicks on an activity that is selected leave the other
    activities in their order and move the activity to the end; a list
    without duplicates is merely reordered. *)
Theorem selected_toggle_twice_moves_last (a : string) (prev : TravelFormData) :
  a ∈ activities prev →
  activities (handleActivityChange a (handleActivityChange a prev))
    = filter (λ x, x ≠ a) (activities prev) ++ [a] ∧
  (NoDup (activities prev) →
   activities (handleActivityChange a (handleActivityChange a prev))
     ≡ₚ activities prev).
Proof.
  intros Hin. cbn [handleActivityChange activities].
  assert (toggle a (toggle a (activities prev))
          = filter (λ x, x ≠ a) (activities prev) ++ [a]) as Heq.
  { unfold toggle at 2. rewrite bool_decide_eq_true_2 by done.
    unfold toggle. rewrite bool_decide_eq_false_2; [done|].
    rewrite list_elem_of_filter. by intros [? _]. }
  split; [done|]. intros Hnodup. rewrite Heq.
  apply NoDup_Permutation; [|done|].
  - apply NoDup_app. split_and!; [by apply NoDup_filter| |apply NoDup_singleton].
    intros x [Hx _]%list_elem_of_filter ->%list_elem_of_singleton. done.
  - intros x. rewrite elem_of_app, list_elem_of_filter, list_elem_of_singleton.
    destruct (decide (x = a)) as [->|]; tauto.
Qed.

Lemma selected_toggle_twice_moves_last_witness :
  activities (handleActivityChange "food"
                (handleActivityChange "food" (after_clicks ["food"; "nature"])))
  = ["nature"; "food"].
Proof.
  apply (selected_toggle_twice_moves_last "food"
           (after_clicks ["food"; "nature"])).
  compute_done.
Defined.

(** X4: clicks on two different activities can be made in either order: the
    same activities are selected, and the lists are equal as soon as one of
    the two was selected before. *)
Theorem clicks_commute (a b : string) (prev : TravelFormData) :
  a ≠ b →
  activities (handleActivityChange a (handleActivityChange b prev))
    ≡ₚ activities (handleActivityChange b (handleActivityChange a prev)) ∧
  (a ∈ activities prev ∨ b ∈ activities prev →
   handleActivityChange a (handleActivityChange b prev)
   = handleActivityChange b (handleActivityChange a prev)).
Proof.
  intros Hab. destruct prev as [? ? ? ? ? ? ? ? l ? ?].
  unfold handleActivityChange. cbn [activities origin destination startDate
    endDate strictDates budget people travelMode visitedBefore hotelPreference].
  assert (a ∈ l ∨ b ∈ l → toggle a (toggle b l) = toggle b (toggle a l)) as Heq.
  { intros Hor. unfold toggle.
    destruct (decide (a ∈ l)) as [Ha|Ha], (decide (b ∈ l)) as [Hb|Hb];
      [| | |tauto].
    - rewrite (bool_decide_eq_true_2 (b ∈ l)), (bool_decide_eq_true_2 (a ∈ l))
        by done.
      rewrite !bool_decide_eq_true_2
        by (apply list_elem_of_filter; split; [congruence|done]).
      rewrite !list_filter_filter. apply list_filter_iff. tauto.
    - rewrite (bool_decide_eq_false_2 (b ∈ l)), (bool_decide_eq_true_2 (a ∈ l))
        by done.
      rewrite bool_decide_eq_true_2 by (apply elem_of_app; by left).
      rewrite bool_decide_eq_false_2
        by (rewrite list_elem_of_filter; tauto).
      rewrite filter_app. by rewrite filter_cons_True, filter_nil by congruence.
    - rewrite (bool_decide_eq_true_2 (b ∈ l)), (bool_decide_eq_false_2 (a ∈ l))
        by done.
      rewrite bool_decide_eq_false_2
        by (rewrite list_elem_of_filter; tauto).
      rewrite bool_decide_eq_true_2 by (apply elem_of_app; by left).
      rewrite filter_app. by rewrite filter_cons_True, filter_nil by congruence. }
  split; [|intros Hor; by rewrite Heq].
  destruct (decide (a ∈ l ∨ b ∈ l)) as [Hor|Hnor]; [by rewrite Heq|].
  unfold toggle.
  rewrite (bool_decide_eq_false_2 (b ∈ l)), (bool_decide_eq_false_2 (a ∈ l))
    by tauto.
  rewrite (bool_decide_eq_false_2 (a ∈ l ++ [b])),
    (bool_decide_eq_false_2 (b ∈ l ++ [a]))
    by (rewrite elem_of_app, list_elem_of_singleton; intros [?|?]; [tauto|done]).
  rewrite <- !(assoc_L (++)). apply Permutation_app_head. apply Permutation_swap.
Qed.

Lemma clicks_commute_witness :
  handleActivityChange "food"
    (handleActivityChange "nature" (after_clicks ["food"; "culture"]))
  = handleActivityChange "nature"
      (handleActivityChange "food" (after_clicks ["food"; "culture"])).
Proof.
  apply (clicks_commute "food" "nature" (after_clicks ["food"; "culture"]));
    compute_done.
Defined.

(** X5: when every click is on an offered activity, the selection holds
    offered activities only, each at most once, so never more than eight. *)
Theorem selection_within_options (clicks : list string) :
  Forall (λ c, c ∈ activityOptions) clicks →
  activities (after_clicks clicks) ⊆ activityOptions ∧
  NoDup (activities (after_clicks clicks)) ∧
  length (activities (after_clicks clicks)) ≤ 8.
Proof.
  intros Hclicks.
  assert (activities (after_clicks clicks) ⊆ activityOptions) as Hsub.
  { apply foldl_toggle_subseteq; [|done]. intros x Hx. by apply elem_of_nil in Hx. }
  assert (NoDup (activities (after_clicks clicks))) as Hnodup
    by (apply foldl_toggle_NoDup, NoDup_nil_2).
  split_and!; [done..|].
  change 8 with (length activityOptions).
  by apply submseteq_length, NoDup_submseteq.
Qed.

Lemma selection_within_options_witness :
  length (activities (after_clicks ["food"; "nature"; "food"; "culture"])) ≤ 8.
Proof.
  apply (selection_within_options ["food"; "nature"; "food"; "culture"]).
  compute_done.
Defined.

(** X6: after a click the form fails the activities check exactly when the
    clicked activity was the only one selected. *)
Theorem click_empties_selection_iff (a : string) (f : TravelFormData) :
  (is_Some ((validateForm (handleActivityChange a f)).1 !! "activities")
   ↔ activities f ≠ [] ∧ ∀ x, x ∈ activities f → x = a) ∧
  (NoDup (activities f) →
   (is_Some ((validateForm (handleActivityChange a f)).1 !! "activities")
    ↔ activities f = [a])).
Proof.
  assert (is_Some ((validateForm (handleActivityChange a f)).1 !! "activities")
          ↔ toggle a (activities f) = []) as Herr.
  { rewrite FrontendFacts.errors_activities. cbn [handleActivityChange activities].
    destruct (toggle a (activities f)); cbn [length Nat.eqb].
    - split; [done|]. intros _. by eexists.
    - split; [by intros [? ?]|done]. }
  rewrite Herr, toggle_nil_iff. split; [done|]. intros Hnodup. split.
  - intros [Hne Hall]. destruct (activities f) as [|x [|y l]]; [done| |].
    + by rewrite (Hall x) by (by left).
    + exfalso. apply NoDup_cons in Hnodup as [Hx _]. apply Hx.
      rewrite (Hall x), (Hall y) by (try (by left); right; by left). by left.
  - intros ->. split; [done|]. by intros x ->%list_elem_of_singleton.
Qed.

(** *** The checks of [validateForm] *)

Lemma trimStart_empty_iff (s : string) :
  JS.trimStart s = EmptyString ↔ all_white_space s = true.
Proof.
  induction s as [|c s IH]; [done|]. cbn [JS.trimStart all_white_space].
  destruct (JS.is_white_space c); [done|]. by split.
Qed.

Lemma trimEnd_empty_iff (s : string) :
  JS.trimEnd s = EmptyString ↔ all_white_space s = true.
Proof.
  induction s as [|c s IH]; [done|]. cbn [JS.trimEnd all_white_space].
  destruct (JS.trimEnd s) as [|c' t].
  - rewrite (proj1 IH eq_refl), andb_true_r.
    destruct (JS.is_white_space c); by split.
  - split; [done|]. intros [_ Hs%IH]%andb_prop. done.
Qed.

Lemma all_white_space_trimStart (s : string) :
  all_white_space (JS.trimStart s) = all_white_space s.
Proof.
  induction s as [|c s IH]; [done|]. cbn [JS.trimStart all_white_space].
  destruct (JS.is_white_space c) eqn:Hc; [done|].
  cbn [all_white_space]. by rewrite Hc.
Qed.

(** [!s.trim()] holds exactly for the strings made of white space. *)
Lemma trim_blank (s : string) :
  negb (JS.truthy (JS.trim s)) = all_white_space s.
Proof.
  unfold JS.trim. rewrite <- (all_white_space_trimStart s).
  destruct (JS.trimEnd (JS.trimStart s)) as [|c t] eqn:Ht.
  - symmetry. by apply trimEnd_empty_iff.
  - cbn. symmetry. apply not_true_iff_false.
    intros Hw%trimEnd_empty_iff. congruence.
Qed.

Lemma errors_origin (f : TravelFormData) :
  (validateForm f).1 !! "origin" =
    if all_white_space (origin f) then Some "Origin is required" else None.
Proof. FrontendFacts.errors_lookup. by rewrite trim_blank. Qed.

Lemma errors_destination (f : TravelFormData) :
  (validateForm f).1 !! "destination" =
    if all_white_space (destination f)
    then Some "Destination is required" else None.
Proof. FrontendFacts.errors_lookup. by rewrite trim_blank. Qed.

Lemma errors_people (f : TravelFormData) :
  (validateForm f).1 !! "people" =
    if negb (JS.truthy (people f)) || JS.le (JS.parseInt (people f)) (JS.Int 0)
    then Some "Number of people is required"
    else None.
Proof. by FrontendFacts.errors_lookup. Qed.

(** X7: on form text of code units below 256, which is what a [string]
    holds, [validateForm] records an origin (destination) error exactly when
    the field consists of white space only (TAB, LF, VT, FF, CR, SP, NBSP),
    the empty field included, and the form is then not submitted.  White
    space above U+00FF is outside these strings. *)
Theorem blank_city_rejected (f : TravelFormData) :
  (is_Some ((validateForm f).1 !! "origin") ↔ all_white_space (origin f) = true) ∧
  (is_Some ((validateForm f).1 !! "destination")
   ↔ all_white_space (destination f) = true) ∧
  (all_white_space (origin f) = true ∨ all_white_space (destination f) = true →
   handleSubmit f = None).
Proof.
  rewrite errors_origin, errors_destination. split_and!.
  - destruct (all_white_space (origin f)).
    + split; [done|]. intros _. by eexists.
    + split; [by intros [? ?]|done].
  - destruct (all_white_space (destination f)).
    + split; [done|]. intros _. by eexists.
    + split; [by intros [? ?]|done].
  - intros [Ho|Hd].
    + apply (FrontendFacts.error_rejects f "origin").
      rewrite errors_origin, Ho. by eexists.
    + apply (FrontendFacts.error_rejects f "destination").
      rewrite errors_destination, Hd. by eexists.
Qed.

(** *** Numbers written by [toString] *)

Lemma pretty_N_char_digit (d : N) :
  (d < 10)%N →
  is_digit (pretty_N_char d) = true ∧
  (JS.code (pretty_N_char d) - 48)%Z = Z.of_N d.
Proof.
  intros Hd.
  assert (d = 0 ∨ d = 1 ∨ d = 2 ∨ d = 3 ∨ d = 4 ∨ d = 5 ∨ d = 6 ∨ d = 7
          ∨ d = 8 ∨ d = 9)%N as Hcases by lia.
  repeat (destruct Hcases as [->|Hcases]; [done|]). by subst.
Qed.

Lemma decimal_pretty_N_go (x : N) (s : string) (v : Z) :
  decimal s = Some v →
  decimal (pretty_N_go x s)
  = Some (Z.of_N x * 10 ^ Z.of_nat (String.length s) + v)%Z.
Proof.
  revert s v. induction (N.lt_wf_0 x) as [x _ IH]; intros s v Hv.
  destruct (decide (x = 0)%N) as [->|Hx].
  - rewrite pretty_N_go_0, Hv. f_equal; lia.
  - rewrite pretty_N_go_step by lia.
    destruct (pretty_N_char_digit (x `mod` 10)) as [Hdigit Hcode];
      [by apply N.mod_lt|].
    rewrite (IH (x `div` 10)%N) with
      (v := ((JS.code (pretty_N_char (x `mod` 10)) - 48)
             * 10 ^ Z.of_nat (String.length s) + v)%Z).
    + f_equal. cbn [String.length]. rewrite Hcode.
      rewrite Nat2Z.inj_succ, Z.pow_succ_r by lia.
      rewrite (N.div_mod x 10) at 3 by done.
      rewrite N2Z.inj_add, N2Z.inj_mul. change (Z.of_N 10) with 10%Z. lia.
    + apply N.div_lt; lia.
    + cbn [decimal]. by rewrite Hdigit, Hv.
Qed.

Lemma truthy_pretty_N_go (x : N) (s : string) :
  JS.truthy s = true → JS.truthy (pretty_N_go x s) = true.
Proof.
  revert s. induction (N.lt_wf_0 x) as [x _ IH]; intros s Hs.
  destruct (decide (x = 0)%N) as [->|Hx]; [by rewrite pretty_N_go_0|].
  rewrite pretty_N_go_step by lia. apply IH; [apply N.div_lt; lia|done].
Qed.

Lemma decimal_pretty (n : N) :
  decimal (pretty n) = Some (Z.of_N n) ∧ JS.truthy (pretty n) = true.
Proof.
  unfold pretty, pretty_N. case_decide as Hn; [by subst|].
  split.
  - rewrite (decimal_pretty_N_go n EmptyString 0) by done. f_equal. cbn. lia.
  - rewrite pretty_N_go_step by lia. by apply truthy_pretty_N_go.
Qed.

Lemma append_empty_r (s : string) : s +:+ EmptyString = s.
Proof.
  induction s as [|c s IH]; [done|].
  change (String c s +:+ EmptyString) with (String c (s +:+ EmptyString)).
  by rewrite IH.
Qed.

(** [parseInt] reads back what [toString] writes.  Below 2^53 the digits
    are at most sixteen, and the number [parseInt] returns is the integer
    they write, without rounding. *)
Lemma parseInt_toString (n : N) (s : string) :
  toString n = Some s →
  (n < 2 ^ 53)%N ∧ JS.truthy s = true ∧ JS.parseInt s = JS.Int (Z.of_N n).
Proof.
  unfold toString. destruct (N.ltb_spec n (2 ^ 53)) as [Hlt|]; [|done].
  intros [= <-]. destruct (decimal_pretty n) as [Hd Ht].
  split_and!; [done..|].
  rewrite <- (append_empty_r (pretty n)).
  apply FrontendFacts.parseInt_digits; [done..|by left].
Qed.

Lemma errors_people_toString (f : TravelFormData) (n : N) :
  toString n = Some (people f) →
  (validateForm f).1 !! "people" =
    if decide (n = 0%N) then Some "Number of people is required" else None.
Proof.
  intros (_ & Ht & Hp)%parseInt_toString.
  rewrite errors_people, Hp, Ht. cbn [negb orb JS.le].
  destruct (Z.leb_spec (Z.of_N n) 0); case_decide; done || lia.
Qed.

(** Every value the travelers select offers passes the people check. *)
Lemma people_options_pass (f : TravelFormData) :
  people f ∈ peopleOptions → (validateForm f).1 !! "people" = None.
Proof.
  unfold peopleOptions. intros (n & Hn & Hp)%list_elem_of_omap.
  rewrite (errors_people_toString f n Hp). case_decide as H0; [|done].
  subst n. exfalso. revert Hn. compute_done.
Qed.

(** X8: when the travelers field holds [num.toString()] of a natural number
    below 2^53, as every option of the select does, [parseInt] reads the
    number back, and a people error is recorded exactly when the number is
    0. *)
Theorem people_number_checked (f : TravelFormData) (n : N) :
  toString n = Some (people f) →
  JS.parseInt (people f) = JS.Int (Z.of_N n) ∧
  (is_Some ((validateForm f).1 !! "people") ↔ n = 0%N) ∧
  (n ≠ 0%N → (validateForm f).1 !! "people" = None).
Proof.
  intros Hp. pose proof (errors_people_toString f n Hp) as Herr.
  apply parseInt_toString in Hp as (_ & _ & Hparse).
  split_and!.
  - done.
  - rewrite Herr. case_decide.
    + split; [done|]. intros _. by eexists.
    + split; [by intros [? ?]|done].
  - intros Hn. by rewrite Herr, decide_False.
Qed.

Lemma people_number_checked_witness :
  let f := sample_form "2025-03-05" "2025-03-10" "3000" in
  JS.parseInt (people f) = JS.Int 2.
Proof.
  intros f. apply (people_number_checked f 2). reflexivity.
Defined.

(** *** Dates beyond the year 9999 *)

Lemma decimal_cons (c : ascii) (s : string) (v : Z) :
  decimal (String c s) = Some v →
  is_digit c = true ∧
  ∃ w, decimal s = Some w ∧
       v = ((JS.code c - 48) * 10 ^ Z.of_nat (String.length s) + w)%Z.
Proof.
  cbn [decimal]. destruct (is_digit c); [|discriminate].
  destruct (decimal s) as [w|]; [|discriminate]. intros [= <-].
  split; [done|]. by exists w.
Qed.

Lemma iso_first_digit (s : string) (d : Date) :
  parse_iso_date s = Some d → (2000 ≤ year d)%Z →
  ∃ c rest, s = String c rest ∧ (50 ≤ JS.code c)%Z.
Proof.
  intros (y & m & dd & -> & Hy & _ & _ & Vy & _)%FrontendFacts.parse_iso_date_shape
    Hyear.
  destruct y as [|c y]; [discriminate|]. exists c. eexists. split; [done|].
  apply decimal_cons in Vy as (_ & w & Hw & Vy).
  pose proof (FrontendFacts.decimal_bounds _ _ Hw) as Hb.
  cbn [String.length] in Hy. injection Hy as Hy. rewrite Hy in *.
  change (10 ^ Z.of_nat 3)%Z with 1000%Z in *. lia.
Qed.

Lemma long_first_digit (s : string) (d : Date) :
  parse_long_date s = Some d →
  (10000 ≤ year d)%Z ∧
  ∃ c rest, s = String c rest ∧ ((year d < 20000)%Z → (JS.code c ≤ 49)%Z).
Proof.
  unfold parse_long_date. intros H.
  destruct (String.length s =? 11) eqn:Hlen; [|discriminate].
  apply Nat.eqb_eq in Hlen.
  destruct s as [|c0 [|c1 [|c2 [|c3 [|c4 [|c5 [|c6 [|c7 [|c8 [|c9 [|c10 [|]]]]]]]]]]]];
    try discriminate.
  clear Hlen. cbn [negb String.get] in H.
  case_bool_decide as H0; [discriminate|].
  case_bool_decide as H5; [|discriminate].
  case_bool_decide as H8; [|discriminate].
  cbn [negb String.substring] in H.
  destruct (decimal (String c0 _)) as [vy|] eqn:Vy; [|discriminate].
  destruct (decimal (String c6 _)) as [vm|]; [|discriminate].
  destruct (decimal (String c9 _)) as [vd|]; [|discriminate].
  match type of H with (if ?c then _ else _) = _ => destruct c end;
    [|discriminate].
  injection H as <-. cbn [year].
  apply decimal_cons in Vy as (Hc0 & w & Hw & ->).
  pose proof (FrontendFacts.decimal_bounds _ _ Hw) as Hb.
  cbn [String.length] in *. change (10 ^ Z.of_nat 4)%Z with 10000%Z in *.
  assert (JS.code c0 ≠ 48%Z) as Hne.
  { intros Hcode. apply H0. f_equal. unfold JS.code in Hcode.
    rewrite <- (ascii_N_embedding c0).
    replace (N_of_ascii c0) with 48%N by lia. done. }
  unfold is_digit in Hc0. apply andb_prop in Hc0 as [Hlo _].
  apply Z.leb_le in Hlo. split; [lia|]. exists c0. eexists. split; [done|]. lia.
Qed.

(** X15: the date check compares strings.  An end date in the years 10000
    to 19999 is later than any start date in the years 2000 to 9999, but its
    string is the smaller one, so the form is rejected with the end-date
    error. *)
Theorem long_year_end_date_rejected (f : TravelFormData) (ds de : Date) :
  parse_iso_date (startDate f) = Some ds →
  parse_long_date (endDate f) = Some de →
  (2000 ≤ year ds)%Z → (year de < 20000)%Z →
  date_lt ds de ∧
  (validateForm f).1 !! "endDate" = Some "End date must be after start date" ∧
  handleSubmit f = None.
Proof.
  intros Hs He Hys Hye.
  destruct (iso_first_digit _ _ Hs Hys) as (c & rest & Hstart & Hc).
  destruct (long_first_digit _ _ He) as (Hlong & c' & rest' & Hend & Hc').
  specialize (Hc' Hye).
  assert ((year ds < 10000)%Z) as Hshort.
  { apply FrontendFacts.parse_iso_date_shape in Hs
      as (y & _ & _ & _ & Hy & _ & _ & Vy & _).
    pose proof (FrontendFacts.decimal_bounds _ _ Vy) as Hb. rewrite Hy in Hb.
    change (10 ^ Z.of_nat 4)%Z with 10000%Z in Hb. lia. }
  assert ((validateForm f).1 !! "endDate"
          = Some "End date must be after start date") as Herr.
  { rewrite FrontendFacts.errors_endDate, Hstart, Hend.
    unfold JS.string_ge. cbn [JS.truthy andb String.compare].
    rewrite OrdersFacts.ascii_compare_code.
    by rewrite (proj2 (Z.compare_gt_iff _ _)) by lia. }
  split_and!.
  - unfold date_lt, date_compare.
    by rewrite (proj2 (Z.compare_lt_iff _ _)) by lia.
  - done.
  - apply (FrontendFacts.error_rejects f "endDate"). rewrite Herr. by eexists.
Qed.

Lemma long_year_end_date_rejected_witness :
  let f := sample_form "2026-03-05" "12026-03-05" "3000" in
  date_lt {| year := 2026; month := 3; day := 5 |}
          {| year := 12026; month := 3; day := 5 |} ∧
  (validateForm f).1 !! "endDate" = Some "End date must be after start date" ∧
  handleSubmit f = None.
Proof.
  intros f.
  apply (long_year_end_date_rejected f
           {| year := 2026; month := 3; day := 5 |}
           {| year := 12026; month := 3; day := 5 |});
    [reflexivity|reflexivity|cbn; lia|cbn; lia].
Defined.

(** *** Acceptance *)

Lemma validateForm_verdict (f : TravelFormData) :
  (validateForm f).2 = true ↔ (validateForm f).1 = ∅.
Proof.
  change ((validateForm f).2) with (size (validateForm f).1 =? 0).
  rewrite Nat.eqb_eq. apply map_size_empty_iff.
Qed.

Lemma handleSubmit_Some_iff (f : TravelFormData) :
  handleSubmit f = Some f ↔ (validateForm f).1 = ∅.
Proof.
  unfold handleSubmit. rewrite <- validateForm_verdict.
  destruct ((validateForm f).2); split; done.
Qed.

Lemma handleSubmit_None_iff (f : TravelFormData) :
  handleSubmit f = None ↔ (validateForm f).1 ≠ ∅.
Proof.
  unfold handleSubmit. rewrite <- validateForm_verdict.
  destruct ((validateForm f).2); split; done.
Qed.

(** *** What the modal shows *)

Lemma lookup_record_if_Some (c : bool) (k k' v x : string)
    (m : gmap string string) :
  record_if c k v m !! k' = Some x → x = v ∨ m !! k' = Some x.
Proof.
  unfold record_if. destruct c; [|by right].
  destruct (decide (k = k')) as [->|Hne].
  - rewrite lookup_insert_eq. intros [= <-]. by left.
  - rewrite lookup_insert_ne by done. by right.
Qed.

(** Every message [validateForm] records is a non-empty string. *)
Lemma message_truthy (f : TravelFormData) (key message : string) :
  (validateForm f).1 !! key = Some message → JS.truthy message = true.
Proof.
  unfold validateForm. cbn [fst]. intros H.
  repeat (apply lookup_record_if_Some in H as [->|H]; [done|]).
  by rewrite lookup_empty in H.
Qed.

Lemma shown_submit (st : State) (key : string) :
  shown key (submit st).1 = (validateForm (formData st)).1 !! key.
Proof.
  unfold submit, shown.
  destruct (validateForm (formData st)) as [newErrors ok] eqn:Hv.
  cbn [fst errors]. rewrite lookup_fmap.
  destruct (newErrors !! key) as [message|] eqn:Hk; [|done]. cbn.
  rewrite (message_truthy (formData st) key message); [done|].
  by rewrite Hv.
Qed.

Lemma shown_input (field : Field) (value key : string) (st : State) :
  shown key (handleInputChange field value st) =
    if decide (key = field_name field) then None else shown key st.
Proof.
  unfold handleInputChange. case_bool_decide as Hshown.
  - unfold shown at 1. cbn [errors]. case_decide as Hkey.
    + subst key. by rewrite lookup_insert_eq.
    + by rewrite lookup_insert_ne.
  - case_decide as Hkey; [|done]. subst key.
    change (shown (field_name field) st = None).
    destruct (shown (field_name field) st); [|done].
    exfalso. apply Hshown. by eexists.
Qed.

Lemma shown_edit (e : Event) (key message : string) (st : State) :
  is_edit e = true → shown key (step st e) = Some message →
  shown key st = Some message.
Proof.
  destruct e as [field value|activity| |]; intros He Hs;
    try discriminate He; cbn [step] in Hs.
  - rewrite shown_input in Hs. by case_decide.
  - exact Hs.
Qed.

Lemma shown_edits (events : list Event) (key message : string) (st : State) :
  forallb is_edit events = true → shown key (run st events) = Some message →
  shown key st = Some message.
Proof.
  revert st. induction events as [|e events IH]; intros st Hedits; [done|].
  cbn [forallb] in Hedits. apply andb_prop in Hedits as [He Hes].
  unfold run. cbn [foldl]. intros Hs. apply (shown_edit e); [done|].
  by apply IH.
Qed.

(** X10: [handleInputChange] stores the value in its field and in no other,
    removes the error shown under that field, and keeps every other error
    on display. *)
Theorem input_sets_field_and_clears_its_error (field : Field) (value : string)
    (st : State) :
  get_field field (formData (handleInputChange field value st)) = value ∧
  (∀ other, other ≠ field →
     get_field other (formData (handleInputChange field value st))
     = get_field other (formData st)) ∧
  activities (formData (handleInputChange field value st))
    = activities (formData st) ∧
  shown (field_name field) (handleInputChange field value st) = None ∧
  (∀ key, key ≠ field_name field →
     shown key (handleInputChange field value st) = shown key st).
Proof.
  split_and!.
  - by destruct field.
  - intros other Hne. destruct field, other; done.
  - done.
  - rewrite shown_input. by rewrite decide_True.
  - intros key Hne. rewrite shown_input. by rewrite decide_False.
Qed.

(** X11: between two submissions the errors on display can only go away:
    after any series of edits, an error that is shown was shown before with
    the same message, and no error is shown under a field that was typed
    into. *)
Theorem edits_only_clear_errors (events : list Event) (st : State) :
  forallb is_edit events = true →
  (∀ key message, shown key (run st events) = Some message →
     shown key st = Some message) ∧
  (∀ field value, Input field value ∈ events →
     shown (field_name field) (run st events) = None).
Proof.
  intros Hedits. split.
  - intros key message. by apply shown_edits.
  - revert st. induction events as [|e events IH]; intros st field value Hin.
    { by apply elem_of_nil in Hin. }
    cbn [forallb] in Hedits. apply andb_prop in Hedits as [He Hes].
    unfold run. cbn [foldl]. apply elem_of_cons in Hin as [<-|Hin].
    + destruct (shown (field_name field) (foldl step _ events))
        as [message|] eqn:Hs; [|done].
      apply (shown_edits events) in Hs; [|done]. cbn [step] in Hs.
      rewrite shown_input, decide_True in Hs by done. done.
    + by apply (IH Hes _ field value).
Qed.

Lemma edits_only_clear_errors_witness :
  shown "budget"
    (run (submit initialState).1 [Toggle "food"; Input Budget "3000"]) = None.
Proof.
  apply (proj2 (edits_only_clear_errors [Toggle "food"; Input Budget "3000"]
                  (submit initialState).1 eq_refl) Budget "3000").
  apply elem_of_cons. right. apply elem_of_cons. by left.
Defined.

(** X12: [handleActivityChange] does not touch the errors.  When a form
    without activity has been submitted, the activities error stays on
    display after an activity is selected, although the form now passes the
    activities check. *)
Theorem activities_error_outlives_selection (st : State) (a : string) :
  activities (formData st) = [] →
  let st' := step (step st Submit) (Toggle a) in
  shown "activities" st' = Some "Please select at least one activity" ∧
  (validateForm (formData st')).1 !! "activities" = None.
Proof.
  intros Hacts st'. subst st'. cbn [step]. split.
  - change (shown "activities" (toggleActivity a (submit st).1))
      with (shown "activities" (submit st).1).
    rewrite shown_submit, FrontendFacts.errors_activities. by rewrite Hacts.
  - rewrite FrontendFacts.errors_activities.
    assert (formData (toggleActivity a (submit st).1)
            = handleActivityChange a (formData st)) as ->.
    { unfold submit. by destruct (validateForm (formData st)). }
    cbn [handleActivityChange activities]. by rewrite Hacts.
Qed.

Lemma activities_error_outlives_selection_witness :
  shown "activities" (step (step initialState Submit) (Toggle "food"))
  = Some "Please select at least one activity".
Proof.
  apply (activities_error_outlives_selection initialState "food"). reflexivity.
Defined.

(** X13: a submission replaces whatever was on display by the errors of
    [validateForm] on the current form, leaves the form as it is, and hands
    it to [onSubmit] exactly when no error is shown. *)
Theorem submit_shows_validation (st : State) :
  (∀ key, shown key (submit st).1 = (validateForm (formData st)).1 !! key) ∧
  formData (submit st).1 = formData st ∧
  ((submit st).2 = Some (formData st) ↔ ∀ key, shown key (submit st).1 = None) ∧
  ((submit st).2 = None ↔ ∃ key message, shown key (submit st).1 = Some message).
Proof.
  assert ((submit st).2 = handleSubmit (formData st)) as Hsub.
  { unfold submit, handleSubmit. by destruct (validateForm (formData st)). }
  assert ((∀ key, shown key (submit st).1 = None)
          ↔ (validateForm (formData st)).1 = ∅) as Hnone.
  { split.
    - intros Hall. apply map_eq. intros key.
      by rewrite <- shown_submit, Hall, lookup_empty.
    - intros Hempty key. by rewrite shown_submit, Hempty, lookup_empty. }
  split_and!.
  - apply shown_submit.
  - unfold submit. by destruct (validateForm (formData st)).
  - by rewrite Hsub, handleSubmit_Some_iff, Hnone.
  - rewrite Hsub, handleSubmit_None_iff. split.
    + intros (key & message & Hk)%map_choose.
      exists key, message. by rewrite shown_submit.
    + intros (key & message & Hk) Hempty. rewrite shown_submit in Hk.
      by rewrite Hempty, lookup_empty in Hk.
Qed.

(** *** Chat messages *)

Lemma addMessage_ids (type content : string) (prev : list Message) :
  id <$> prev = seq 1 (length prev) →
  id <$> addMessage type content prev = seq 1 (length (addMessage type content prev)).
Proof.
  intros Hprev. unfold addMessage.
  rewrite fmap_app, length_app, Hprev. cbn [fmap list_fmap length id].
  rewrite seq_app. cbn [seq]. by rewrite (Nat.add_comm (length prev) 1).
Qed.

(** X14: message ids count up from 1 without gap: after any series of
    [setMessages] updates the message at position [i] has id [i + 1], so no
    two messages share an id. *)
Theorem message_ids_consecutive (greeting : string)
    (posts : list (string * string)) :
  id <$> messagesAfter greeting posts = seq 1 (S (length posts)) ∧
  NoDup (id <$> messagesAfter greeting posts).
Proof.
  assert (∀ start : list Message,
            id <$> start = seq 1 (length start) →
            let final := foldl (λ prev post, addMessage post.1 post.2 prev)
                           start posts in
            id <$> final = seq 1 (length final) ∧
            length final = length start + length posts) as Hgen.
  { induction posts as [|post posts IH]; intros start Hstart final.
    - subst final. cbn. split; [done|lia].
    - subst final. cbn [foldl].
      destruct (IH (addMessage post.1 post.2 start)) as [Hids Hlen].
      { by apply addMessage_ids. }
      split; [done|]. rewrite Hlen. unfold addMessage.
      rewrite length_app. cbn. lia. }
  destruct (Hgen (initialMessages greeting) eq_refl) as [Hids Hlen].
  unfold messagesAfter. rewrite Hids, Hlen. cbn [initialMessages length].
  split; [done|]. apply NoDup_seq.
Qed.

End ModalFacts.
